(** * Cross-chain bridge relay: [src/bridge.py]

    A shallow embedding of [connect_to], [get_contract_info] and
    [scan_blocks].  Every call that leaves the Python program (file
    access, [print], the web3 library and, through it, the two RPC
    endpoints) is an operation of an effect signature [Op]; the program is
    a finite tree of such operations whose branches are indexed by the
    answers of the environment.  An environment is any state machine that
    answers operations; running a program against one yields the returned
    value (or the uncaught exception), the trace of calls with their
    answers and the final state of the environment. *)

From Stdlib Require Import ZArith String Ascii List Lia.
From Stdlib.Strings Require Byte.
From stdpp Require Import base tactics option list strings gmap.

Local Open Scope Z_scope.
Local Open Scope string_scope.

(** ** Python values *)

(** A raised exception: its class name and [str(e)], which is what the
    f-strings of the program print. *)
Record exn : Type := Raised { exn_class : string; exn_str : string }.

(** The outcome of a call that may raise. *)
Definition result (A : Type) : Type := (exn + A)%type.

(** What [json.load] produces.  Number literals are the integers of the
    file; a dict is a finite map from its keys. *)
#[warnings="-register-all"]
Inductive json : Type :=
| JNull
| JBool (b : bool)
| JInt (z : Z)
| JStr (s : string)
| JArr (xs : list json)
| JObj (m : gmap string json).

Definition KeyError (k : string) : exn := Raised "KeyError" ("'" ++ k ++ "'").
Definition TypeError (msg : string) : exn := Raised "TypeError" msg.
Definition UnboundLocalError (v : string) : exn :=
  Raised "UnboundLocalError"
         ("cannot access local variable '" ++ v ++
          "' where it is not associated with a value").

Definition type_name (j : json) : string :=
  match j with
  | JNull => "NoneType"
  | JBool _ => "bool"
  | JInt _ => "int"
  | JStr _ => "str"
  | JArr _ => "list"
  | JObj _ => "dict"
  end.

(** [j[k]] for a string key [k]. *)
Definition getitem (j : json) (k : string) : result json :=
  match j with
  | JObj m =>
      match m !! k with
      | Some v => inr v
      | None => inl (KeyError k)
      end
  | JArr _ => inl (TypeError "list indices must be integers or slices, not str")
  | JStr _ => inl (TypeError "string indices must be integers, not 'str'")
  | _ => inl (TypeError ("'" ++ type_name j ++ "' object is not subscriptable"))
  end.

(** [k in j] for a string [k]: key membership in a dict, element
    membership in a list, substring test in a string. *)
Definition contains (j : json) (k : string) : result bool :=
  match j with
  | JObj m => inr (bool_decide (is_Some (m !! k)))
  | JArr xs =>
      inr (existsb (fun x => match x with
                             | JStr s => bool_decide (s = k)
                             | _ => false
                             end) xs)
  | JStr s => inr (bool_decide (is_Some (String.index 0 k s)))
  | _ => inl (TypeError ("argument of type '" ++ type_name j ++
                         "' is not iterable"))
  end.

(** Truth value of an object, as tested by [not x]. *)
Definition truthy (j : json) : bool :=
  match j with
  | JNull => false
  | JBool b => b
  | JInt z => negb (z =? 0)%Z
  | JStr s => negb (bool_decide (s = ""))
  | JArr xs => negb (bool_decide (xs = []))
  | JObj m => negb (Nat.eqb (size m) 0)
  end.

(** [HexBytes.hex()]: two lower-case hexadecimal digits per byte. *)
Definition hex_digit (n : N) : ascii :=
  if (n <? 10)%N then ascii_of_N (48 + n) else ascii_of_N (87 + n).

Definition hex_byte (b : Byte.byte) : string :=
  let n := Byte.to_N b in
  String (hex_digit (n / 16)) (String (hex_digit (n mod 16)) EmptyString).

Fixpoint hex (bs : list Byte.byte) : string :=
  match bs with
  | [] => EmptyString
  | b :: bs' => hex_byte b ++ hex bs'
  end.

(** ** Chain-side data *)

(** The two web3 handles of a pass: [w3_src] and [w3_dst], and with them
    the two contract objects [src_contract] and [dst_contract]. *)
Inductive side : Type := Src | Dst.

Inductive event_kind : Type := Deposit | Unwrap.

Inductive bridge_fn : Type := wrap | withdraw.

#[global] Instance side_eq_dec : EqDecision side.
Proof. solve_decision. Defined.
#[global] Instance event_kind_eq_dec : EqDecision event_kind.
Proof. solve_decision. Defined.
#[global] Instance bridge_fn_eq_dec : EqDecision bridge_fn.
Proof. solve_decision. Defined.

(** What web3 decodes from a log: the values an entry of
    [get_all_entries] and its [args] are made of.  A dict is the list of
    its items, the binding in force for a key being the first one. *)
#[warnings="-register-all"]
Inductive pyval : Type :=
| PNone
| PBool (b : bool)
| PInt (z : Z)
| PStr (s : string)
| PBytes (bs : list Byte.byte)
| PList (xs : list pyval)
| PDict (items : list (string * pyval)).

Fixpoint py_lookup (items : list (string * pyval)) (k : string)
  : option pyval :=
  match items with
  | [] => None
  | (k', v) :: rest => if String.eqb k' k then Some v else py_lookup rest k
  end.

Definition py_type_name (v : pyval) : string :=
  match v with
  | PNone => "NoneType"
  | PBool _ => "bool"
  | PInt _ => "int"
  | PStr _ => "str"
  | PBytes _ => "bytes"
  | PList _ => "list"
  | PDict _ => "AttributeDict"
  end.

Definition AttributeError (type_of attr : string) : exn :=
  Raised "AttributeError"
         ("'" ++ type_of ++ "' object has no attribute '" ++ attr ++ "'").

(** [v[k]] for a string key [k]. *)
Definition py_getitem (v : pyval) (k : string) : result pyval :=
  match v with
  | PDict items =>
      match py_lookup items k with
      | Some x => inr x
      | None => inl (KeyError k)
      end
  | PList _ => inl (TypeError "list indices must be integers or slices, not str")
  | PStr _ => inl (TypeError "string indices must be integers, not 'str'")
  | PBytes _ => inl (TypeError "byte indices must be integers or slices, not str")
  | _ => inl (TypeError ("'" ++ py_type_name v ++
                         "' object is not subscriptable"))
  end.

(** A log entry as [get_all_entries] returns it: an [AttributeDict],
    whose keys are read with [evt['args']] and [evt.transactionHash]. *)
Record Event : Type := LogEntry { fields : list (string * pyval) }.

(** [contract.functions.<fn>(token, recipient, amount)]: the first two
    arguments are whatever the entry holds, the third is an [int]. *)
Record ContractCall : Type := {
  call_fn : bridge_fn;
  call_token : pyval;
  call_recipient : pyval;
  call_amount : Z
}.

(** The dict handed to [build_transaction]. *)
Record TxParams : Type := {
  tx_from : string;
  tx_nonce : Z;
  tx_gas : Z;
  tx_maxFeePerGas : Z;
  tx_maxPriorityFeePerGas : Z;
  tx_chainId : Z
}.

(** The dict [build_transaction] returns; the program only passes it on
    to [sign_transaction]. *)
Definition tx_dict : Type := list (string * json).

(** ** Effects *)

(** The operations of the environment, indexed by the type of their
    answer.  Everything but [print] may raise. *)
Inductive Op : Type -> Type :=
| LoadJson (path : string) : Op (result json)
| Print (line : string) : Op unit
| NewWeb3 (s : side) (api_url : string) : Op (result unit)
| IsConnected (s : side) : Op (result bool)
| BlockNumber (s : side) : Op (result Z)
| EthContract (s : side) (address abi : json) : Op (result unit)
| GetAllEntries (s : side) (k : event_kind) (from_block to_block : Z)
  : Op (result (list Event))
| GetTransactionCount (s : side) (addr : string) : Op (result Z)
| ContractFunction (s : side) (c : ContractCall) : Op (result unit)
| ChainId (s : side) : Op (result Z)
| BuildTransaction (s : side) (c : ContractCall) (p : TxParams)
  : Op (result tx_dict)
| SignTransaction (s : side) (tx : tx_dict) (private_key : json)
  : Op (result (list Byte.byte))
| SendRawTransaction (s : side) (raw : list Byte.byte)
  : Op (result (list Byte.byte)).

(** A program: a value, or an operation and what to do with its answer. *)
Inductive prog (R : Type) : Type :=
| Ret (r : R)
| Do {X : Type} (op : Op X) (k : X -> prog R).

Arguments Ret {R} r.
Arguments Do {R X} op k.

Fixpoint pbind {A B : Type} (p : prog A) (f : A -> prog B) : prog B :=
  match p with
  | Ret a => f a
  | Do op k => Do op (fun x => pbind (k x) f)
  end.

(** Python code: a program that returns or raises. *)
Definition M (A : Type) : Type := prog (result A).

Definition ret {A : Type} (a : A) : M A := Ret (inr a).
Definition raise {A : Type} (e : exn) : M A := Ret (inl e).
Definition lift {A : Type} (r : result A) : M A := Ret r.

Definition bind {A B : Type} (m : M A) (f : A -> M B) : M B :=
  pbind m (fun r => match r with
                    | inl e => Ret (inl e)
                    | inr a => f a
                    end).

(** [try: body / except Exception as e: handler e]. *)
Definition try_except {A : Type} (body : M A) (handler : exn -> M A) : M A :=
  pbind body (fun r => match r with
                       | inl e => handler e
                       | inr a => Ret (inr a)
                       end).

(** A call that may raise, and [print], which does not. *)
Definition call {X : Type} (op : Op (result X)) : M X := Do op Ret.
Definition print (line : string) : M unit := Do (Print line) (fun _ => ret tt).

Declare Scope py_scope.
Delimit Scope py_scope with py.
Notation "x <- m ;; k" := (bind m (fun x => k))
  (at level 100, m at next level, right associativity) : py_scope.
Notation "m ;; k" := (bind m (fun _ => k))
  (at level 100, right associativity) : py_scope.
Local Open Scope py_scope.

(** ** Traces *)

(** One entry of a trace: the operation and the answer it got. *)
Inductive Call : Type :=
| CLoadJson (path : string) (r : result json)
| CPrint (line : string)
| CNewWeb3 (s : side) (api_url : string) (r : result unit)
| CIsConnected (s : side) (r : result bool)
| CBlockNumber (s : side) (r : result Z)
| CEthContract (s : side) (address abi : json) (r : result unit)
| CGetAllEntries (s : side) (k : event_kind) (from_block to_block : Z)
                 (r : result (list Event))
| CGetTransactionCount (s : side) (addr : string) (r : result Z)
| CContractFunction (s : side) (c : ContractCall) (r : result unit)
| CChainId (s : side) (r : result Z)
| CBuildTransaction (s : side) (c : ContractCall) (p : TxParams)
                    (r : result tx_dict)
| CSignTransaction (s : side) (tx : tx_dict) (private_key : json)
                   (r : result (list Byte.byte))
| CSendRawTransaction (s : side) (raw : list Byte.byte)
                      (r : result (list Byte.byte)).

Definition record_call {X : Type} (op : Op X) : X -> Call :=
  match op in Op T return T -> Call with
  | LoadJson path => CLoadJson path
  | Print line => fun _ => CPrint line
  | NewWeb3 s url => CNewWeb3 s url
  | IsConnected s => CIsConnected s
  | BlockNumber s => CBlockNumber s
  | EthContract s a abi => CEthContract s a abi
  | GetAllEntries s k f t => CGetAllEntries s k f t
  | GetTransactionCount s a => CGetTransactionCount s a
  | ContractFunction s c => CContractFunction s c
  | ChainId s => CChainId s
  | BuildTransaction s c p => CBuildTransaction s c p
  | SignTransaction s tx pk => CSignTransaction s tx pk
  | SendRawTransaction s raw => CSendRawTransaction s raw
  end.

(** An environment: a state and the answer it gives to each operation. *)
Record Env : Type := {
  world : Type;
  respond : forall X : Type, Op X -> world -> X * world
}.

(** The outcome of a run. *)
Record Outcome (R W : Type) : Type := {
  value : R;
  trace : list Call;
  final : W
}.

Arguments value {R W} o.
Arguments trace {R W} o.
Arguments final {R W} o.

Fixpoint interp (E : Env) {R : Type} (p : prog R) (w : world E)
  : Outcome R (world E) :=
  match p with
  | Ret r => {| value := r; trace := []; final := w |}
  | Do op k =>
      let '(x, w') := respond E _ op w in
      let o := interp E (k x) w' in
      {| value := value o; trace := record_call op x :: trace o;
         final := final o |}
  end.

(** ** The program *)

Definition nl : string := String (ascii_of_nat 10) EmptyString.

Definition avax_rpc : string := "https://api.avax-test.network/ext/bc/C/rpc".
Definition bsc_rpc : string := "https://data-seed-prebsc-1-s1.binance.org:8545/".

(** [connect_to(chain)], lines 9-20.  [api_url] and [w3] are bound only
    under their [if]s; the handle returned for a known chain is the one
    the caller stores in [w3_src] or [w3_dst]. *)
Definition connect_to (chain : string) : M side :=
  let api_url : option string :=
    if bool_decide (chain = "source") then Some avax_rpc else None in
  let api_url : option string :=
    if bool_decide (chain = "destination") then Some bsc_rpc else api_url in
  if bool_decide (chain ∈ ["source"; "destination"]) then
    match api_url with
    | Some url =>
        let w3 := if bool_decide (chain = "source") then Src else Dst in
        call (NewWeb3 w3 url);;
        ret w3
    | None => raise (UnboundLocalError "api_url")
    end
  else raise (UnboundLocalError "w3").

(** [get_contract_info(chain, contract_info)], lines 23-34.  Only the
    read of the file is inside the [try]; the lookup of the role key is
    after it. *)
Definition get_contract_info (chain contract_info : string) : M json :=
  loaded <- try_except
              (contracts <- call (LoadJson contract_info);;
               ret (Some contracts))
              (fun e =>
                 print ("Failed to read contract info" ++ nl ++
                        "Please contact your instructor" ++ nl ++ exn_str e);;
                 ret None);;
  match loaded with
  | None => ret (JInt 0)
  | Some contracts => lift (getitem contracts chain)
  end.

(** The two directions of lines 95-133 and 135-171 differ in the event
    read, the chain written to, the function called and the words of the
    messages; [relay_direction] below is the block for one of them. *)
Definition scanned_event (scanned : side) : event_kind :=
  match scanned with Src => Deposit | Dst => Unwrap end.

Definition relay_target (scanned : side) : side :=
  match scanned with Src => Dst | Dst => Src end.

Definition relay_fn (scanned : side) : bridge_fn :=
  match scanned with Src => wrap | Dst => withdraw end.

Definition side_name (s : side) : string :=
  match s with Src => "source" | Dst => "destination" end.

Definition event_name (k : event_kind) : string :=
  match k with Deposit => "Deposit" | Unwrap => "Unwrap" end.

Definition fn_name (f : bridge_fn) : string :=
  match f with wrap => "wrap" | withdraw => "withdraw" end.

(** [w3.to_wei(n, 'gwei')]. *)
Definition to_wei_gwei (n : Z) : Z := n * 1000000000.

Definition sent_line (scanned : side) (origin : string)
    (tx_hash : list Byte.byte) : string :=
  fn_name (relay_fn scanned) ++ " sent on " ++
  side_name (relay_target scanned) ++ " for tx " ++
  origin ++ " -> " ++ hex tx_hash.

Definition failed_line (scanned : side) (e : exn) : string :=
  "Failed to call " ++ fn_name (relay_fn scanned) ++ " on " ++
  side_name (relay_target scanned) ++ ": " ++ exn_str e.

(** [evt.transactionHash.hex()], inside the f-string of lines 131 and
    169: an attribute of the entry, then a method of [bytes]. *)
Definition origin_hex (evt : Event) : result string :=
  match py_lookup (fields evt) "transactionHash" with
  | None => inl (AttributeError "AttributeDict" "transactionHash")
  | Some (PBytes bs) => inr (hex bs)
  | Some (PDict items) =>
      match py_lookup items "hex" with
      | Some v => inl (TypeError ("'" ++ py_type_name v ++
                                  "' object is not callable"))
      | None => inl (AttributeError "AttributeDict" "hex")
      end
  | Some v => inl (AttributeError (py_type_name v) "hex")
  end.

Section Relay.

(** [int(s)] for a [str] or [bytes] [s]: the parser of the interpreter,
    which raises [ValueError] on text that is not an integer literal. *)
Variable int_of_text : string -> result Z.

(** [int(v)]: the identity on an [int]. *)
Definition py_int (v : pyval) : result Z :=
  match v with
  | PInt z => inr z
  | PBool b => inr (if b then 1 else 0)
  | PStr s => int_of_text s
  | PBytes bs => int_of_text (string_of_list_byte bs)
  | _ => inl (TypeError
                ("int() argument must be a string, a bytes-like object " ++
                 "or a real number, not '" ++ py_type_name v ++ "'"))
  end.

(** Lines 112-115 and 152-155: [args = evt['args']],
    [token = args['token']], [recipient = args['recipient']],
    [amount = int(args['amount'])].  Each of the four can raise. *)
Definition read_fields (evt : Event) : result (pyval * pyval * Z) :=
  match py_getitem (PDict (fields evt)) "args" with
  | inl e => inl e
  | inr args =>
      match py_getitem args "token" with
      | inl e => inl e
      | inr token =>
          match py_getitem args "recipient" with
          | inl e => inl e
          | inr recipient =>
              match py_getitem args "amount" with
              | inl e => inl e
              | inr a =>
                  match py_int a with
                  | inl e => inl e
                  | inr amount => inr (token, recipient, amount)
                  end
              end
          end
      end
  end.

(** The body of the [for] loops, lines 112-133 and 152-171.  The fields
    are read before the [try], so a failure there leaves the loop and the
    function; everything from the nonce read to the [print] of the sent
    line is inside it. *)
Definition relay_event (scanned : side) (warden_pk : json)
    (warden_addr : string) (evt : Event) : M unit :=
  read <- lift (read_fields evt);;
  let '(token, recipient, amount) := read in
  let target := relay_target scanned in
  try_except
    (nonce <- call (GetTransactionCount target warden_addr);;
     let fn_call := {| call_fn := relay_fn scanned; call_token := token;
                       call_recipient := recipient; call_amount := amount |} in
     call (ContractFunction target fn_call);;
     chain_id <- call (ChainId target);;
     tx <- call (BuildTransaction target fn_call
                   {| tx_from := warden_addr;
                      tx_nonce := nonce;
                      tx_gas := 250000;
                      tx_maxFeePerGas := to_wei_gwei 2;
                      tx_maxPriorityFeePerGas := to_wei_gwei 1;
                      tx_chainId := chain_id |});;
     raw_transaction <- call (SignTransaction target tx warden_pk);;
     tx_hash <- call (SendRawTransaction target raw_transaction);;
     origin <- lift (origin_hex evt);;
     print (sent_line scanned origin tx_hash))
    (fun e => print (failed_line scanned e)).

(** [for evt in evts: ...], lines 111 and 151. *)
Fixpoint relay_events (scanned : side) (warden_pk : json)
    (warden_addr : string) (evts : list Event) : M unit :=
  match evts with
  | [] => ret tt
  | evt :: rest =>
      relay_event scanned warden_pk warden_addr evt;;
      relay_events scanned warden_pk warden_addr rest
  end.

(** One [if chain == ...:] block, lines 95-133 and 135-171: read the
    events of the window, return 0 when there are none, relay them
    otherwise and go on with [next]. *)
Definition relay_direction (scanned : side) (from_block latest : Z)
    (warden_pk : json) (warden_addr : string) (next : M Z) : M Z :=
  evts <- try_except
            (call (GetAllEntries scanned (scanned_event scanned)
                                 from_block latest))
            (fun e =>
               print ("Failed to fetch " ++
                      event_name (scanned_event scanned) ++ " events on " ++
                      side_name scanned ++ ": " ++ exn_str e);;
               ret []);;
  match evts with
  | [] =>
      print ("No " ++ event_name (scanned_event scanned) ++
             " events found on " ++ side_name scanned ++
             " in the last 5 blocks");;
      ret 0
  | _ :: _ =>
      relay_events scanned warden_pk warden_addr evts;;
      next
  end.

End Relay.

Section ScanBlocks.

(** [Web3.to_checksum_address]: a pure function of the library that
    raises on a value that is not an address. *)
Variable to_checksum_address : json -> result string.

(** [int] on text, as in [py_int]. *)
Variable int_of_text : string -> result Z.

(** Lines 81-89: the source entry's key when it has one, else the
    destination entry's, else none. *)
Definition resolve_warden (src_meta dst_meta : json)
  : result (option (json * string)) :=
  match contains src_meta "warden_private_key" with
  | inl e => inl e
  | inr true =>
      match getitem src_meta "warden_private_key" with
      | inl e => inl e
      | inr warden_pk =>
          match getitem src_meta "warden_address" with
          | inl e => inl e
          | inr a =>
              match to_checksum_address a with
              | inl e => inl e
              | inr warden_addr => inr (Some (warden_pk, warden_addr))
              end
          end
      end
  | inr false =>
      match contains dst_meta "warden_private_key" with
      | inl e => inl e
      | inr true =>
          match getitem dst_meta "warden_private_key" with
          | inl e => inl e
          | inr warden_pk =>
              match getitem dst_meta "warden_address" with
              | inl e => inl e
              | inr a =>
                  match to_checksum_address a with
                  | inl e => inl e
                  | inr warden_addr => inr (Some (warden_pk, warden_addr))
                  end
              end
          end
      | inr false => inr None
      end
  end.

(** [w3.eth.contract(address=meta['address'], abi=meta['abi'])]. *)
Definition instantiate (w3 : side) (meta : json) : M unit :=
  address <- lift (getitem meta "address");;
  abi <- lift (getitem meta "abi");;
  call (EthContract w3 address abi).

(** Lines 95-173, once the windows and the warden are known. *)
Definition relay_phase (chain : string) (from_src latest_src : Z)
    (from_dst latest_dst : Z) (warden_pk : json) (warden_addr : string)
  : M Z :=
  let destination_block : M Z :=
    if bool_decide (chain = "destination") then
      relay_direction int_of_text Dst from_dst latest_dst warden_pk
                      warden_addr (ret 1)
    else ret 1 in
  if bool_decide (chain = "source") then
    relay_direction int_of_text Src from_src latest_src warden_pk
                    warden_addr destination_block
  else destination_block.

(** Lines 58-173 of [scan_blocks], from the two loaded entries on. *)
Definition scan_with_info (chain : string) (src_meta dst_meta : json) : M Z :=
  if negb (truthy src_meta) || negb (truthy dst_meta) then ret 0 else
  w3_src <- connect_to "source";;
  w3_dst <- connect_to "destination";;
  src_up <- call (IsConnected w3_src);;
  down <- (if negb src_up then ret true
           else dst_up <- call (IsConnected w3_dst);; ret (negb dst_up));;
  if (down : bool) then
    print "Failed to connect to one of the RPC endpoints";;
    ret 0
  else
  latest_src <- call (BlockNumber w3_src);;
  latest_dst <- call (BlockNumber w3_dst);;
  let from_src := Z.max (latest_src - 4) 0 in
  let from_dst := Z.max (latest_dst - 4) 0 in
  instantiate w3_src src_meta;;
  instantiate w3_dst dst_meta;;
  warden <- lift (resolve_warden src_meta dst_meta);;
  match warden with
  | None =>
      print "warden key/address not found in contract_info.json";;
      ret 0
  | Some (warden_pk, warden_addr) =>
      relay_phase chain from_src latest_src from_dst latest_dst
                  warden_pk warden_addr
  end.

(** [scan_blocks(chain, contract_info)], lines 38-173. *)
Definition scan_blocks (chain contract_info : string) : M Z :=
  if bool_decide (chain ∉ ["source"; "destination"]) then
    print ("Invalid chain: " ++ chain);;
    ret 0
  else
  src_meta <- get_contract_info "source" contract_info;;
  dst_meta <- get_contract_info "destination" contract_info;;
  scan_with_info chain src_meta dst_meta.

End ScanBlocks.

(** ** Reading traces *)

(** Calls made through a web3 handle or a contract object. *)
Definition web3_call (c : Call) : bool :=
  match c with
  | CLoadJson _ _ | CPrint _ => false
  | _ => true
  end.

(** Calls that send a JSON-RPC request to an endpoint. *)
Definition rpc_call (c : Call) : bool :=
  match c with
  | CIsConnected _ _ | CBlockNumber _ _ | CGetAllEntries _ _ _ _ _
  | CGetTransactionCount _ _ _ | CChainId _ _
  | CSendRawTransaction _ _ _ => true
  | _ => false
  end.

(** Calls of the scan-and-relay part: event queries and everything done
    for one event. *)
Definition relay_call (c : Call) : bool :=
  match c with
  | CGetAllEntries _ _ _ _ _ | CGetTransactionCount _ _ _
  | CContractFunction _ _ _ | CChainId _ _ | CBuildTransaction _ _ _ _
  | CSignTransaction _ _ _ _ | CSendRawTransaction _ _ _ => true
  | _ => false
  end.

Definition printed (t : list Call) : list string :=
  omap (fun c => match c with CPrint line => Some line | _ => None end) t.

Definition event_queries (t : list Call)
  : list (side * event_kind * Z * Z * result (list Event)) :=
  omap (fun c => match c with
                 | CGetAllEntries s k f l r => Some (s, k, f, l, r)
                 | _ => None
                 end) t.

Definition heights (t : list Call) : list (side * result Z) :=
  omap (fun c => match c with
                 | CBlockNumber s r => Some (s, r)
                 | _ => None
                 end) t.

Definition nonce_reads (t : list Call) : list (side * string) :=
  omap (fun c => match c with
                 | CGetTransactionCount s a _ => Some (s, a)
                 | _ => None
                 end) t.

Definition built_calls (t : list Call) : list (side * ContractCall) :=
  omap (fun c => match c with
                 | CBuildTransaction s c _ _ => Some (s, c)
                 | _ => None
                 end) t.

Definition signing_keys (t : list Call) : list json :=
  omap (fun c => match c with
                 | CSignTransaction _ _ pk _ => Some pk
                 | _ => None
                 end) t.

Definition accepted (c : Call) : bool :=
  match c with
  | CSendRawTransaction _ _ (inr _) => true
  | _ => false
  end.

(** The two kinds of line the loops print, told apart by how they start. *)
Definition is_sent_line (scanned : side) (line : string) : bool :=
  String.prefix (fn_name (relay_fn scanned) ++ " sent on ") line.

Definition is_failed_line (line : string) : bool :=
  String.prefix "Failed to call " line.

Definition sent_count (scanned : side) (t : list Call) : nat :=
  length (List.filter (is_sent_line scanned) (printed t)).

Definition failed_count (t : list Call) : nat :=
  length (List.filter is_failed_line (printed t)).

Definition accepted_count (t : list Call) : nat :=
  length (List.filter accepted t).

(** A nonce may be used by [build_transaction] only when it is the answer
    of the last [get_transaction_count], made for the same chain and
    sender, with no other transaction built or submitted in between.
    [last] is the read that is still fresh. *)
Fixpoint nonces_fresh (last : option (side * string * Z)) (t : list Call)
  : bool :=
  match t with
  | [] => true
  | CGetTransactionCount s a (inr n) :: t' => nonces_fresh (Some (s, a, n)) t'
  | CGetTransactionCount _ _ (inl _) :: t' => nonces_fresh None t'
  | CBuildTransaction s _ p _ :: t' =>
      match last with
      | Some (s', a, n) =>
          bool_decide (s' = s) && bool_decide (a = tx_from p) &&
          (n =? tx_nonce p)%Z && nonces_fresh None t'
      | None => false
      end
  | CSendRawTransaction _ _ _ :: t' => nonces_fresh None t'
  | _ :: t' => nonces_fresh last t'
  end.

(** ** A test environment *)

(** A scripted pair of chains: the outcome of reading the configuration,
    the logs and heights of the two chains, the transaction count of the
    sender on each, and the fate of the submissions to come ([true]: the
    node accepts). *)
Record Mock : Type := {
  m_config : result json;
  m_connected : side -> bool;
  m_height : side -> Z;
  m_logs : side -> event_kind -> list Event;
  m_count : side -> Z;
  m_submissions : list bool
}.

Definition mock_chain_id (s : side) : Z :=
  match s with Src => 43113 | Dst => 97 end.

(** The block of a log entry; an entry without one counts as block 0. *)
Definition blockNumber (evt : Event) : Z :=
  match py_lookup (fields evt) "blockNumber" with
  | Some (PInt n) => n
  | _ => 0
  end.

Definition in_window (from_block to_block : Z) (evt : Event) : bool :=
  (from_block <=? blockNumber evt)%Z && (blockNumber evt <=? to_block)%Z.

Definition mock_respond (X : Type) (op : Op X) (m : Mock) : X * Mock :=
  match op in Op T return T * Mock with
  | LoadJson _ => (m_config m, m)
  | Print _ => (tt, m)
  | NewWeb3 _ _ => (inr tt, m)
  | IsConnected s => (inr (m_connected m s), m)
  | BlockNumber s => (inr (m_height m s), m)
  | EthContract _ _ _ => (inr tt, m)
  | GetAllEntries s k f l =>
      (inr (List.filter (in_window f l) (m_logs m s k)), m)
  | GetTransactionCount s _ => (inr (m_count m s), m)
  | ContractFunction _ _ => (inr tt, m)
  | ChainId s => (inr (mock_chain_id s), m)
  | BuildTransaction _ _ _ => (inr [], m)
  | SignTransaction _ _ _ => (inr [Byte.x02], m)
  | SendRawTransaction s raw =>
      match m_submissions m with
      | false :: rest =>
          (inl (Raised "Web3RPCError" "transaction underpriced"),
           {| m_config := m_config m; m_connected := m_connected m;
              m_height := m_height m; m_logs := m_logs m;
              m_count := m_count m; m_submissions := rest |})
      | submissions =>
          (inr [Byte.xab],
           {| m_config := m_config m; m_connected := m_connected m;
              m_height := m_height m; m_logs := m_logs m;
              m_count := fun s' => if bool_decide (s' = s)
                                   then (m_count m s' + 1)%Z else m_count m s';
              m_submissions := tail submissions |})
      end
  end.

Definition mock : Env := {| world := Mock; respond := mock_respond |}.

(** An address is accepted when it is a string of 42 characters. *)
Definition mock_checksum (a : json) : result string :=
  match a with
  | JStr s => if Nat.eqb (String.length s) 42 then inr s
              else inl (Raised "ValueError" "invalid address")
  | _ => inl (Raised "TypeError" "unsupported address type")
  end.

(** Text is read as an integer when it is a non-empty string of decimal
    digits. *)
Fixpoint digits (s : string) (acc : Z) : option Z :=
  match s with
  | EmptyString => Some acc
  | String c s' =>
      let n := Z.of_nat (nat_of_ascii c) in
      if ((48 <=? n) && (n <=? 57))%Z then digits s' (10 * acc + (n - 48))
      else None
  end.

Definition mock_int (s : string) : result Z :=
  match s with
  | EmptyString => inl (Raised "ValueError" "invalid literal for int()")
  | _ =>
      match digits s 0 with
      | Some z => inr z
      | None => inl (Raised "ValueError" "invalid literal for int()")
      end
  end.

Definition token_a : pyval :=
  PStr "0xAAaAaAaaAaAaAaaAaAAAAAAAAaaaAaAaAaaAaaAa".
Definition recipient_b : pyval :=
  PStr "0xbBbBBBBbbBBBbbbBbbBbbbbBBbBbbbbBbBbbBBbB".

(** A log entry with the three arguments of a bridge event, the hash of
    the transaction that emitted it and its block. *)
Definition log_entry (amount : pyval) (block : Z) (h : Byte.byte) : Event :=
  LogEntry
    [("args", PDict [("token", token_a); ("recipient", recipient_b);
                     ("amount", amount)]);
     ("transactionHash", PBytes [h]);
     ("blockNumber", PInt block)].

Definition deposit (amount : Z) (block : Z) (h : Byte.byte) : Event :=
  log_entry (PInt amount) block h.

Definition entry (address : string) : gmap string json :=
  <["address" := JStr address]> (<["abi" := JArr []]> ∅).

Definition warden_entry (address key warden : string) : gmap string json :=
  <["warden_private_key" := JStr key]>
    (<["warden_address" := JStr warden]> (entry address)).

Definition src_address : string := "0x1111111111111111111111111111111111111111".
Definition dst_address : string := "0x2222222222222222222222222222222222222222".
Definition warden_a : string := "0x3333333333333333333333333333333333333333".
Definition warden_b : string := "0x4444444444444444444444444444444444444444".

(** A configuration in which the source entry carries the credential. *)
Definition config_ok : json :=
  JObj (<["source" := JObj (warden_entry src_address "0xkeyA" warden_a)]>
        (<["destination" := JObj (entry dst_address)]> ∅)).

(** Three deposits in blocks 98, 99 and 100 of the source chain and one
    older deposit outside the window; one unwrap in block 1 of the
    destination chain, whose height is 2; the second submission is
    rejected. *)
Definition mock0 : Mock :=
  {| m_config := inr config_ok;
     m_connected := fun _ => true;
     m_height := fun s => match s with Src => 100 | Dst => 2 end;
     m_logs := fun s k =>
       match s, k with
       | Src, Deposit => [deposit 5 90 Byte.x10; deposit 1000 98 Byte.x11;
                          deposit 123456789012345678901234567890 99 Byte.x12;
                          deposit 7 100 Byte.x13]
       | Dst, Unwrap => [deposit 250 1 Byte.x21]
       | _, _ => []
       end;
     m_count := fun _ => 40;
     m_submissions := [true; false; true] |}.

Definition with_config (c : result json) (m : Mock) : Mock :=
  {| m_config := c; m_connected := m_connected m; m_height := m_height m;
     m_logs := m_logs m; m_count := m_count m;
     m_submissions := m_submissions m |}.

Definition with_submissions (l : list bool) (m : Mock) : Mock :=
  {| m_config := m_config m; m_connected := m_connected m;
     m_height := m_height m; m_logs := m_logs m; m_count := m_count m;
     m_submissions := l |}.

(** A pass over the source chain. *)
Definition pass (m : Mock) : Outcome (result Z) Mock :=
  interp mock
         (scan_blocks mock_checksum mock_int "source" "contract_info.json") m.

(** The deposits of [mock0] that lie in the window [96, 100]. *)
Definition window_events : list Event :=
  [deposit 1000 98 Byte.x11;
   deposit 123456789012345678901234567890 99 Byte.x12;
   deposit 7 100 Byte.x13].

(** Neither entry carries a warden key. *)
Definition config_no_warden : json :=
  JObj (<["source" := JObj (entry src_address)]>
        (<["destination" := JObj (entry dst_address)]> ∅)).

(** Both entries carry a credential. *)
Definition config_both : json :=
  JObj (<["source" := JObj (warden_entry src_address "0xkeyA" warden_a)]>
        (<["destination" :=
             JObj (warden_entry dst_address "0xkeyB" warden_b)]> ∅)).

(** Valid JSON with no "destination" key. *)
Definition config_no_destination : json :=
  JObj (<["source" := JObj (warden_entry src_address "0xkeyA" warden_a)]> ∅).

(** ** The trace of a pass *)

(** What the [try] of one turn of the loop can leave in the trace, for
    the three values read from the entry and the rendering [origin] of
    its transaction hash: the calls up to the first one that raised, then
    the line printed.  [audit_raised] is the turn whose transaction was
    accepted and whose sent line could not be formatted. *)
Inductive Attempt (scanned : side) (warden_pk : json) (warden_addr : string)
    (token recipient : pyval) (amount : Z) (origin : result string)
  : list Call -> Prop :=
| nonce_raised e :
    Attempt scanned warden_pk warden_addr token recipient amount origin
      [CGetTransactionCount (relay_target scanned) warden_addr (inl e);
       CPrint (failed_line scanned e)]
| function_raised n e :
    Attempt scanned warden_pk warden_addr token recipient amount origin
      [CGetTransactionCount (relay_target scanned) warden_addr (inr n);
       CContractFunction (relay_target scanned)
         {| call_fn := relay_fn scanned; call_token := token;
            call_recipient := recipient;
            call_amount := amount |} (inl e);
       CPrint (failed_line scanned e)]
| chain_id_raised n e :
    Attempt scanned warden_pk warden_addr token recipient amount origin
      [CGetTransactionCount (relay_target scanned) warden_addr (inr n);
       CContractFunction (relay_target scanned)
         {| call_fn := relay_fn scanned; call_token := token;
            call_recipient := recipient;
            call_amount := amount |} (inr tt);
       CChainId (relay_target scanned) (inl e);
       CPrint (failed_line scanned e)]
| build_raised n cid e :
    Attempt scanned warden_pk warden_addr token recipient amount origin
      [CGetTransactionCount (relay_target scanned) warden_addr (inr n);
       CContractFunction (relay_target scanned)
         {| call_fn := relay_fn scanned; call_token := token;
            call_recipient := recipient;
            call_amount := amount |} (inr tt);
       CChainId (relay_target scanned) (inr cid);
       CBuildTransaction (relay_target scanned)
         {| call_fn := relay_fn scanned; call_token := token;
            call_recipient := recipient;
            call_amount := amount |}
         {| tx_from := warden_addr; tx_nonce := n; tx_gas := 250000;
            tx_maxFeePerGas := 2000000000;
            tx_maxPriorityFeePerGas := 1000000000; tx_chainId := cid |}
         (inl e);
       CPrint (failed_line scanned e)]
| sign_raised n cid tx e :
    Attempt scanned warden_pk warden_addr token recipient amount origin
      [CGetTransactionCount (relay_target scanned) warden_addr (inr n);
       CContractFunction (relay_target scanned)
         {| call_fn := relay_fn scanned; call_token := token;
            call_recipient := recipient;
            call_amount := amount |} (inr tt);
       CChainId (relay_target scanned) (inr cid);
       CBuildTransaction (relay_target scanned)
         {| call_fn := relay_fn scanned; call_token := token;
            call_recipient := recipient;
            call_amount := amount |}
         {| tx_from := warden_addr; tx_nonce := n; tx_gas := 250000;
            tx_maxFeePerGas := 2000000000;
            tx_maxPriorityFeePerGas := 1000000000; tx_chainId := cid |}
         (inr tx);
       CSignTransaction (relay_target scanned) tx warden_pk (inl e);
       CPrint (failed_line scanned e)]
| send_raised n cid tx raw e :
    Attempt scanned warden_pk warden_addr token recipient amount origin
      [CGetTransactionCount (relay_target scanned) warden_addr (inr n);
       CContractFunction (relay_target scanned)
         {| call_fn := relay_fn scanned; call_token := token;
            call_recipient := recipient;
            call_amount := amount |} (inr tt);
       CChainId (relay_target scanned) (inr cid);
       CBuildTransaction (relay_target scanned)
         {| call_fn := relay_fn scanned; call_token := token;
            call_recipient := recipient;
            call_amount := amount |}
         {| tx_from := warden_addr; tx_nonce := n; tx_gas := 250000;
            tx_maxFeePerGas := 2000000000;
            tx_maxPriorityFeePerGas := 1000000000; tx_chainId := cid |}
         (inr tx);
       CSignTransaction (relay_target scanned) tx warden_pk (inr raw);
       CSendRawTransaction (relay_target scanned) raw (inl e);
       CPrint (failed_line scanned e)]
| audit_raised n cid tx raw tx_hash e :
    origin = inl e ->
    Attempt scanned warden_pk warden_addr token recipient amount origin
      [CGetTransactionCount (relay_target scanned) warden_addr (inr n);
       CContractFunction (relay_target scanned)
         {| call_fn := relay_fn scanned; call_token := token;
            call_recipient := recipient;
            call_amount := amount |} (inr tt);
       CChainId (relay_target scanned) (inr cid);
       CBuildTransaction (relay_target scanned)
         {| call_fn := relay_fn scanned; call_token := token;
            call_recipient := recipient;
            call_amount := amount |}
         {| tx_from := warden_addr; tx_nonce := n; tx_gas := 250000;
            tx_maxFeePerGas := 2000000000;
            tx_maxPriorityFeePerGas := 1000000000; tx_chainId := cid |}
         (inr tx);
       CSignTransaction (relay_target scanned) tx warden_pk (inr raw);
       CSendRawTransaction (relay_target scanned) raw (inr tx_hash);
       CPrint (failed_line scanned e)]
| sent n cid tx raw tx_hash shown :
    origin = inr shown ->
    Attempt scanned warden_pk warden_addr token recipient amount origin
      [CGetTransactionCount (relay_target scanned) warden_addr (inr n);
       CContractFunction (relay_target scanned)
         {| call_fn := relay_fn scanned; call_token := token;
            call_recipient := recipient;
            call_amount := amount |} (inr tt);
       CChainId (relay_target scanned) (inr cid);
       CBuildTransaction (relay_target scanned)
         {| call_fn := relay_fn scanned; call_token := token;
            call_recipient := recipient;
            call_amount := amount |}
         {| tx_from := warden_addr; tx_nonce := n; tx_gas := 250000;
            tx_maxFeePerGas := 2000000000;
            tx_maxPriorityFeePerGas := 1000000000; tx_chainId := cid |}
         (inr tx);
       CSignTransaction (relay_target scanned) tx warden_pk (inr raw);
       CSendRawTransaction (relay_target scanned) raw (inr tx_hash);
       CPrint (sent_line scanned shown tx_hash)].

(** One turn of the loop for an entry whose fields could be read. *)
Definition Relayed (int_of_text : string -> result Z) (scanned : side)
    (warden_pk : json) (warden_addr : string) (evt : Event)
    (seg : list Call) : Prop :=
  exists (token recipient : pyval) (amount : Z),
    read_fields int_of_text evt = inr (token, recipient, amount) /\
    Attempt scanned warden_pk warden_addr token recipient amount
            (origin_hex evt) seg.

(** Lines 112-115 succeed on the entry. *)
Definition readable (int_of_text : string -> result Z) (evt : Event) : bool :=
  match read_fields int_of_text evt with
  | inr _ => true
  | inl _ => false
  end.

(** The entries the loop reaches: those before the first one whose
    fields cannot be read. *)
Fixpoint readable_prefix (int_of_text : string -> result Z)
    (evts : list Event) : list Event :=
  match evts with
  | [] => []
  | evt :: rest =>
      if readable int_of_text evt
      then evt :: readable_prefix int_of_text rest
      else []
  end.

(** The exception that ends the loop, if any. *)
Fixpoint first_unreadable (int_of_text : string -> result Z)
    (evts : list Event) : option exn :=
  match evts with
  | [] => None
  | evt :: rest =>
      match read_fields int_of_text evt with
      | inl e => Some e
      | inr _ => first_unreadable int_of_text rest
      end
  end.

(** The events an answer of [get_all_entries] leaves in [evts]. *)
Definition fetched (r : result (list Event)) : list Event :=
  match r with
  | inl _ => []
  | inr evts => evts
  end.

(** What is printed after the query when there is nothing to relay. *)
Definition fetch_notes (scanned : side) (r : result (list Event))
  : list Call :=
  let none :=
    CPrint ("No " ++ event_name (scanned_event scanned) ++
            " events found on " ++ side_name scanned ++
            " in the last 5 blocks") in
  match r with
  | inl e =>
      [CPrint ("Failed to fetch " ++ event_name (scanned_event scanned) ++
               " events on " ++ side_name scanned ++ ": " ++ exn_str e);
       none]
  | inr [] => [none]
  | inr (_ :: _) => []
  end.

(** The result code of a pass that reached the query. *)
Definition pass_code (evts : list Event) : Z :=
  match evts with
  | [] => 0
  | _ :: _ => 1
  end.

(** The calls of lines 62-76 when each of them succeeds. *)
Definition setup_calls (latest_src latest_dst : Z)
    (src_address src_abi dst_address dst_abi : json) : list Call :=
  [CNewWeb3 Src avax_rpc (inr tt);
   CNewWeb3 Dst bsc_rpc (inr tt);
   CIsConnected Src (inr true);
   CIsConnected Dst (inr true);
   CBlockNumber Src (inr latest_src);
   CBlockNumber Dst (inr latest_dst);
   CEthContract Src src_address src_abi (inr tt);
   CEthContract Dst dst_address dst_abi (inr tt)].

Definition latest_of (scanned : side) (latest_src latest_dst : Z) : Z :=
  match scanned with Src => latest_src | Dst => latest_dst end.

(** The trace of a pass that reached the event query. *)
Definition pass_trace (contract_info : string) (scanned : side)
    (c1 c2 : json) (latest_src latest_dst : Z) (a1 b1 a2 b2 : json)
    (r : result (list Event)) (segs : list (list Call)) : list Call :=
  (CLoadJson contract_info (inr c1) ::
   CLoadJson contract_info (inr c2) ::
   setup_calls latest_src latest_dst a1 b1 a2 b2 ++
   CGetAllEntries scanned (scanned_event scanned)
     (Z.max (latest_of scanned latest_src latest_dst - 4) 0)
     (latest_of scanned latest_src latest_dst) r ::
   fetch_notes scanned r ++ concat segs)%list.

(** What a pass that reached the query ends with: 0 for an empty batch,
    the exception of the first entry that cannot be read, 1 otherwise. *)
Definition pass_value (int_of_text : string -> result Z)
    (evts : list Event) : result Z :=
  match first_unreadable int_of_text evts with
  | Some e => inl e
  | None => inr (pass_code evts)
  end.

(** A pass that reached the event query: both entries were read, the
    setup succeeded, a warden was found, the window of the scanned chain
    was queried once and each entry the loop reached was given one
    attempt. *)
Inductive Reached (to_checksum_address : json -> result string)
    (int_of_text : string -> result Z)
    (contract_info : string) (scanned : side)
    (t : list Call) (v : result Z) : Prop :=
| reached (c1 c2 src_meta dst_meta : json) (latest_src latest_dst : Z)
    (a1 b1 a2 b2 warden_pk : json) (warden_addr : string)
    (r : result (list Event)) (segs : list (list Call)) :
    getitem c1 "source" = inr src_meta ->
    getitem c2 "destination" = inr dst_meta ->
    truthy src_meta = true ->
    truthy dst_meta = true ->
    resolve_warden to_checksum_address src_meta dst_meta
      = inr (Some (warden_pk, warden_addr)) ->
    t = pass_trace contract_info scanned c1 c2 latest_src latest_dst
          a1 b1 a2 b2 r segs ->
    Forall2 (Relayed int_of_text scanned warden_pk warden_addr)
            (readable_prefix int_of_text (fetched r)) segs ->
    v = pass_value int_of_text (fetched r) ->
    Reached to_checksum_address int_of_text contract_info scanned t v.

(** The events a pass fetched: those of the answers to its queries. *)
Definition events_fetched (t : list Call) : list Event :=
  concat (map (fun q => fetched (snd q)) (event_queries t)).

(** ** More readings of a trace *)

Definition config_reads (t : list Call) : list (string * result json) :=
  omap (fun c => match c with
                 | CLoadJson path r => Some (path, r)
                 | _ => None
                 end) t.

Definition sessions (t : list Call) : list (side * string) :=
  omap (fun c => match c with
                 | CNewWeb3 s url _ => Some (s, url)
                 | _ => None
                 end) t.

Definition connections (t : list Call) : list (side * result bool) :=
  omap (fun c => match c with
                 | CIsConnected s r => Some (s, r)
                 | _ => None
                 end) t.

Definition built_params (t : list Call) : list TxParams :=
  omap (fun c => match c with
                 | CBuildTransaction _ _ p _ => Some p
                 | _ => None
                 end) t.

(** The chain each call made for an event goes to. *)
Definition relay_sides (t : list Call) : list side :=
  omap (fun c => match c with
                 | CGetTransactionCount s _ _ | CContractFunction s _ _
                 | CChainId s _ | CBuildTransaction s _ _ _
                 | CSignTransaction s _ _ _ | CSendRawTransaction s _ _ =>
                     Some s
                 | _ => None
                 end) t.

(** The transactions [build_transaction] returned and those handed to
    [sign_transaction]; the raw transactions [sign_transaction] returned
    and those handed to [send_raw_transaction]; the hashes
    [send_raw_transaction] returned. *)
Definition built_txs (t : list Call) : list tx_dict :=
  omap (fun c => match c with
                 | CBuildTransaction _ _ _ (inr tx) => Some tx
                 | _ => None
                 end) t.

Definition signed_txs (t : list Call) : list tx_dict :=
  omap (fun c => match c with
                 | CSignTransaction _ tx _ _ => Some tx
                 | _ => None
                 end) t.

Definition raw_signed (t : list Call) : list (list Byte.byte) :=
  omap (fun c => match c with
                 | CSignTransaction _ _ _ (inr raw) => Some raw
                 | _ => None
                 end) t.

Definition raw_submitted (t : list Call) : list (list Byte.byte) :=
  omap (fun c => match c with
                 | CSendRawTransaction _ raw _ => Some raw
                 | _ => None
                 end) t.

(** The chain id in a built transaction must be the answer of the last
    [chain_id] read, made on the chain the transaction is built for, with
    no other transaction built since. *)
Fixpoint chain_ids_fresh (last : option (side * Z)) (t : list Call) : bool :=
  match t with
  | [] => true
  | CChainId s (inr cid) :: t' => chain_ids_fresh (Some (s, cid)) t'
  | CChainId _ (inl _) :: t' => chain_ids_fresh None t'
  | CBuildTransaction s _ p _ :: t' =>
      match last with
      | Some (s', cid) =>
          bool_decide (s' = s) && (cid =? tx_chainId p)%Z &&
          chain_ids_fresh None t'
      | None => false
      end
  | _ :: t' => chain_ids_fresh last t'
  end.

(** The calls [contract.functions.<fn>(...)] of a trace. *)
Definition function_calls (t : list Call) : list (side * ContractCall) :=
  omap (fun c => match c with
                 | CContractFunction s c _ => Some (s, c)
                 | _ => None
                 end) t.

(** The answers to the nonce reads of a trace. *)
Definition nonce_answers (t : list Call) : list (result Z) :=
  omap (fun c => match c with
                 | CGetTransactionCount _ _ r => Some r
                 | _ => None
                 end) t.

(** A nonce read of the trace was answered: the attempt got as far as
    creating the contract call. *)
Definition nonce_answered (t : list Call) : bool :=
  existsb (fun c => match c with
                    | CGetTransactionCount _ _ (inr _) => true
                    | _ => false
                    end) t.

(** A chain-id read of the trace was answered: the attempt got as far
    as [build_transaction]. *)
Definition reached_build (t : list Call) : bool :=
  existsb (fun c => match c with
                    | CChainId _ (inr _) => true
                    | _ => false
                    end) t.

(** [evt.transactionHash.hex()] succeeds on the entry. *)
Definition hash_shown (evt : Event) : bool :=
  match origin_hex evt with
  | inr _ => true
  | inl _ => false
  end.

(** The ways lines 58-89 end a pass before the event query: with what
    trace and with what result.  Every call before the last one of the
    trace succeeded. *)
Inductive Stopped (to_checksum_address : json -> result string)
    (src_meta dst_meta : json) : list Call -> result Z -> Prop :=
| stop_falsy :
    truthy src_meta && truthy dst_meta = false ->
    Stopped to_checksum_address src_meta dst_meta [] (inr 0)
| stop_session_src e :
    Stopped to_checksum_address src_meta dst_meta
      [CNewWeb3 Src avax_rpc (inl e)] (inl e)
| stop_session_dst e :
    Stopped to_checksum_address src_meta dst_meta
      [CNewWeb3 Src avax_rpc (inr tt); CNewWeb3 Dst bsc_rpc (inl e)] (inl e)
| stop_src_test_raised e :
    Stopped to_checksum_address src_meta dst_meta
      [CNewWeb3 Src avax_rpc (inr tt); CNewWeb3 Dst bsc_rpc (inr tt);
       CIsConnected Src (inl e)] (inl e)
| stop_src_down :
    Stopped to_checksum_address src_meta dst_meta
      [CNewWeb3 Src avax_rpc (inr tt); CNewWeb3 Dst bsc_rpc (inr tt);
       CIsConnected Src (inr false);
       CPrint "Failed to connect to one of the RPC endpoints"] (inr 0)
| stop_dst_test_raised e :
    Stopped to_checksum_address src_meta dst_meta
      [CNewWeb3 Src avax_rpc (inr tt); CNewWeb3 Dst bsc_rpc (inr tt);
       CIsConnected Src (inr true); CIsConnected Dst (inl e)] (inl e)
| stop_dst_down :
    Stopped to_checksum_address src_meta dst_meta
      [CNewWeb3 Src avax_rpc (inr tt); CNewWeb3 Dst bsc_rpc (inr tt);
       CIsConnected Src (inr true); CIsConnected Dst (inr false);
       CPrint "Failed to connect to one of the RPC endpoints"] (inr 0)
| stop_src_height e :
    Stopped to_checksum_address src_meta dst_meta
      [CNewWeb3 Src avax_rpc (inr tt); CNewWeb3 Dst bsc_rpc (inr tt);
       CIsConnected Src (inr true); CIsConnected Dst (inr true);
       CBlockNumber Src (inl e)] (inl e)
| stop_dst_height latest_src e :
    Stopped to_checksum_address src_meta dst_meta
      [CNewWeb3 Src avax_rpc (inr tt); CNewWeb3 Dst bsc_rpc (inr tt);
       CIsConnected Src (inr true); CIsConnected Dst (inr true);
       CBlockNumber Src (inr latest_src); CBlockNumber Dst (inl e)] (inl e)
| stop_src_address latest_src latest_dst e :
    getitem src_meta "address" = inl e ->
    Stopped to_checksum_address src_meta dst_meta
      [CNewWeb3 Src avax_rpc (inr tt); CNewWeb3 Dst bsc_rpc (inr tt);
       CIsConnected Src (inr true); CIsConnected Dst (inr true);
       CBlockNumber Src (inr latest_src); CBlockNumber Dst (inr latest_dst)]
      (inl e)
| stop_src_abi latest_src latest_dst a1 e :
    getitem src_meta "address" = inr a1 ->
    getitem src_meta "abi" = inl e ->
    Stopped to_checksum_address src_meta dst_meta
      [CNewWeb3 Src avax_rpc (inr tt); CNewWeb3 Dst bsc_rpc (inr tt);
       CIsConnected Src (inr true); CIsConnected Dst (inr true);
       CBlockNumber Src (inr latest_src); CBlockNumber Dst (inr latest_dst)]
      (inl e)
| stop_src_contract latest_src latest_dst a1 b1 e :
    getitem src_meta "address" = inr a1 ->
    getitem src_meta "abi" = inr b1 ->
    Stopped to_checksum_address src_meta dst_meta
      [CNewWeb3 Src avax_rpc (inr tt); CNewWeb3 Dst bsc_rpc (inr tt);
       CIsConnected Src (inr true); CIsConnected Dst (inr true);
       CBlockNumber Src (inr latest_src); CBlockNumber Dst (inr latest_dst);
       CEthContract Src a1 b1 (inl e)] (inl e)
| stop_dst_address latest_src latest_dst a1 b1 e :
    getitem src_meta "address" = inr a1 ->
    getitem src_meta "abi" = inr b1 ->
    getitem dst_meta "address" = inl e ->
    Stopped to_checksum_address src_meta dst_meta
      [CNewWeb3 Src avax_rpc (inr tt); CNewWeb3 Dst bsc_rpc (inr tt);
       CIsConnected Src (inr true); CIsConnected Dst (inr true);
       CBlockNumber Src (inr latest_src); CBlockNumber Dst (inr latest_dst);
       CEthContract Src a1 b1 (inr tt)] (inl e)
| stop_dst_abi latest_src latest_dst a1 b1 a2 e :
    getitem src_meta "address" = inr a1 ->
    getitem src_meta "abi" = inr b1 ->
    getitem dst_meta "address" = inr a2 ->
    getitem dst_meta "abi" = inl e ->
    Stopped to_checksum_address src_meta dst_meta
      [CNewWeb3 Src avax_rpc (inr tt); CNewWeb3 Dst bsc_rpc (inr tt);
       CIsConnected Src (inr true); CIsConnected Dst (inr true);
       CBlockNumber Src (inr latest_src); CBlockNumber Dst (inr latest_dst);
       CEthContract Src a1 b1 (inr tt)] (inl e)
| stop_dst_contract latest_src latest_dst a1 b1 a2 b2 e :
    getitem src_meta "address" = inr a1 ->
    getitem src_meta "abi" = inr b1 ->
    getitem dst_meta "address" = inr a2 ->
    getitem dst_meta "abi" = inr b2 ->
    Stopped to_checksum_address src_meta dst_meta
      [CNewWeb3 Src avax_rpc (inr tt); CNewWeb3 Dst bsc_rpc (inr tt);
       CIsConnected Src (inr true); CIsConnected Dst (inr true);
       CBlockNumber Src (inr latest_src); CBlockNumber Dst (inr latest_dst);
       CEthContract Src a1 b1 (inr tt); CEthContract Dst a2 b2 (inl e)]
      (inl e)
| stop_warden_raised latest_src latest_dst a1 b1 a2 b2 e :
    getitem src_meta "address" = inr a1 ->
    getitem src_meta "abi" = inr b1 ->
    getitem dst_meta "address" = inr a2 ->
    getitem dst_meta "abi" = inr b2 ->
    resolve_warden to_checksum_address src_meta dst_meta = inl e ->
    Stopped to_checksum_address src_meta dst_meta
      (setup_calls latest_src latest_dst a1 b1 a2 b2) (inl e)
| stop_no_warden latest_src latest_dst a1 b1 a2 b2 :
    getitem src_meta "address" = inr a1 ->
    getitem src_meta "abi" = inr b1 ->
    getitem dst_meta "address" = inr a2 ->
    getitem dst_meta "abi" = inr b2 ->
    resolve_warden to_checksum_address src_meta dst_meta = inr None ->
    Stopped to_checksum_address src_meta dst_meta
      (setup_calls latest_src latest_dst a1 b1 a2 b2 ++
       [CPrint "warden key/address not found in contract_info.json"])%list
      (inr 0).

(** An environment that answers every event query with an exception,
    and one whose chains hold no events. *)
Definition query_fails_respond (X : Type) (op : Op X) (m : Mock) : X * Mock :=
  match op in Op T return T * Mock with
  | GetAllEntries _ _ _ _ =>
      (inl (Raised "Web3RPCError" "filter not found"), m)
  | op' => mock_respond _ op' m
  end.

Definition query_fails : Env :=
  {| world := Mock; respond := query_fails_respond |}.

Definition with_logs (logs : side -> event_kind -> list Event) (m : Mock)
  : Mock :=
  {| m_config := m_config m; m_connected := m_connected m;
     m_height := m_height m; m_logs := logs; m_count := m_count m;
     m_submissions := m_submissions m |}.

Definition with_connected (up : side -> bool) (m : Mock) : Mock :=
  {| m_config := m_config m; m_connected := up;
     m_height := m_height m; m_logs := m_logs m; m_count := m_count m;
     m_submissions := m_submissions m |}.

(** Logs whose entries carry no transaction hash. *)
Definition hashless_logs (s : side) (k : event_kind) : list Event :=
  match s, k with
  | Src, Deposit =>
      map (fun block =>
             LogEntry [("args", PDict [("token", token_a);
                                       ("recipient", recipient_b);
                                       ("amount", PInt 5)]);
                       ("blockNumber", PInt block)])
          [98; 99; 100]
  | _, _ => []
  end.

(** Logs whose second deposit holds text that is not a number where the
    amount should be. *)
Definition unreadable_logs (s : side) (k : event_kind) : list Event :=
  match s, k with
  | Src, Deposit => [deposit 1000 98 Byte.x11;
                     log_entry (PStr "12 tokens") 99 Byte.x12;
                     deposit 7 100 Byte.x13]
  | _, _ => []
  end.

(** ** Running programs *)

Lemma interp_pbind (E : Env) {A B : Type} (p : prog A) (f : A -> prog B)
    (w : world E) :
  interp E (pbind p f) w =
  let o := interp E p w in
  let o' := interp E (f (value o)) (final o) in
  {| value := value o'; trace := trace o ++ trace o'; final := final o' |}.
Proof.
  revert w. induction p as [a | X op k IH]; intros w; simpl.
  - by destruct (interp E (f a) w).
  - destruct (respond E X op w) as [x w']. rewrite IH. reflexivity.
Qed.

Lemma interp_bind (E : Env) {A B : Type} (m : M A) (f : A -> M B)
    (w : world E) :
  interp E (bind m f) w =
  let o := interp E m w in
  match value o with
  | inl e => {| value := inl e; trace := trace o; final := final o |}
  | inr a =>
      let o' := interp E (f a) (final o) in
      {| value := value o'; trace := trace o ++ trace o'; final := final o' |}
  end.
Proof.
  unfold bind. rewrite interp_pbind. simpl.
  destruct (value (interp E m w)); simpl; [by rewrite app_nil_r | done].
Qed.

(** Case analysis on the next answer of the environment. *)
Ltac answer :=
  match goal with
  | |- context [respond ?E ?X ?op ?w] =>
      let x := fresh "x" in
      let w' := fresh "w" in
      destruct (respond E X op w) as [x w'];
      try (destruct x as [? | x]); simpl
  end.

Section Loop.

Variable int_of_text : string -> result Z.

(** One turn of the loop: an entry whose fields cannot be read raises
    before any call is made; any other entry returns after one attempt. *)
Lemma relay_event_attempt (E : Env) (scanned : side) (warden_pk : json)
    (warden_addr : string) (evt : Event) (w : world E) :
  let o := interp E (relay_event int_of_text scanned warden_pk warden_addr
                       evt) w in
  match read_fields int_of_text evt with
  | inl e => value o = inl e ∧ trace o = []
  | inr (token, recipient, amount) =>
      value o = inr tt ∧
      Attempt scanned warden_pk warden_addr token recipient amount
              (origin_hex evt) (trace o)
  end.
Proof.
  unfold relay_event, bind, lift. simpl.
  destruct (read_fields int_of_text evt) as [e | [[token recipient] amount]];
    simpl; [done |].
  unfold try_except, bind, call, print, ret, lift. simpl.
  repeat answer; repeat match goal with u : unit |- _ => destruct u end;
    try (split; [reflexivity | by constructor]).
  destruct (origin_hex evt) as [e | shown] eqn:Ho; simpl; answer;
    (split; [reflexivity | by econstructor]).
Qed.

Lemma readable_prefix_all (evts : list Event) :
  first_unreadable int_of_text evts = None ->
  readable_prefix int_of_text evts = evts.
Proof.
  induction evts as [| evt rest IH]; [done |]. cbn. unfold readable.
  destruct (read_fields int_of_text evt); [done |].
  intros H. by rewrite IH.
Qed.

Lemma first_unreadable_none (evts : list Event) :
  first_unreadable int_of_text evts = None <->
  forallb (readable int_of_text) evts = true.
Proof.
  induction evts as [| evt rest IH]; [done |]. cbn. unfold readable at 1.
  destruct (read_fields int_of_text evt); [done |]. exact IH.
Qed.

Lemma readable_prefix_length (evts : list Event) :
  (length (readable_prefix int_of_text evts) <= length evts)%nat.
Proof.
  induction evts as [| evt rest IH]; [done |]. cbn.
  destruct (readable int_of_text evt); cbn; lia.
Qed.

Lemma read_fields_inv (evt : Event) (token recipient : pyval) (amount : Z) :
  read_fields int_of_text evt = inr (token, recipient, amount) ->
  ∃ args a : pyval,
    py_lookup (fields evt) "args" = Some args ∧
    py_getitem args "token" = inr token ∧
    py_getitem args "recipient" = inr recipient ∧
    py_getitem args "amount" = inr a ∧
    py_int int_of_text a = inr amount.
Proof.
  unfold read_fields. unfold py_getitem at 1.
  destruct (py_lookup (fields evt) "args") as [args |] eqn:Hargs;
    [| discriminate].
  destruct (py_getitem args "token") as [? | tk] eqn:Htk; [discriminate |].
  destruct (py_getitem args "recipient") as [? | rc] eqn:Hrc;
    [discriminate |].
  destruct (py_getitem args "amount") as [? | a] eqn:Ha; [discriminate |].
  destruct (py_int int_of_text a) as [? | am] eqn:Hi; [discriminate |].
  intros [= <- <- <-]. exists args, a. by repeat split.
Qed.

(** The trace of the loop is one attempt per entry reached, in the order
    of the entries; the loop raises exactly when an entry cannot be
    read. *)
Lemma relay_events_attempts (E : Env) (scanned : side) (warden_pk : json)
    (warden_addr : string) (evts : list Event) (w : world E) :
  let o := interp E (relay_events int_of_text scanned warden_pk warden_addr
                       evts) w in
  value o = match first_unreadable int_of_text evts with
            | Some e => inl e
            | None => inr tt
            end ∧
  ∃ segs : list (list Call),
    trace o = concat segs ∧
    Forall2 (Relayed int_of_text scanned warden_pk warden_addr)
            (readable_prefix int_of_text evts) segs.
Proof.
  revert w. induction evts as [| evt rest IH]; intros w.
  - split; [reflexivity |]. exists []. split; [reflexivity | constructor].
  - cbn [relay_events]. cbv zeta. rewrite interp_bind. cbv zeta.
    pose proof (relay_event_attempt E scanned warden_pk warden_addr evt w)
      as Ha. cbv zeta in Ha.
    cbn [first_unreadable readable_prefix]. unfold readable.
    destruct (read_fields int_of_text evt)
      as [e | [[token recipient] amount]] eqn:Hr.
    + destruct Ha as [Hv Ht]. rewrite Hv, Ht. cbn [value trace].
      split; [reflexivity |]. exists []. split; [reflexivity | constructor].
    + destruct Ha as [Hv Ha]. rewrite Hv. cbn [value trace final].
      destruct (IH (final (interp E
                 (relay_event int_of_text scanned warden_pk warden_addr
                    evt) w)))
        as [Hv' (segs & Ht & Hs)].
      split; [exact Hv' |].
      exists (trace (interp E (relay_event int_of_text scanned warden_pk
                                 warden_addr evt) w) :: segs).
      split; [by rewrite Ht |].
      constructor; [| exact Hs]. by exists token, recipient, amount.
Qed.

(** ** The shape of a pass *)

Lemma relay_direction_shape (E : Env) (scanned : side) (from_block latest : Z)
    (warden_pk : json) (warden_addr : string) (w : world E) :
  let o := interp E (relay_direction int_of_text scanned from_block latest
                       warden_pk warden_addr (ret 1)) w in
  ∃ (r : result (list Event)) (segs : list (list Call)),
    trace o = CGetAllEntries scanned (scanned_event scanned)
                from_block latest r :: fetch_notes scanned r ++ concat segs ∧
    Forall2 (Relayed int_of_text scanned warden_pk warden_addr)
            (readable_prefix int_of_text (fetched r)) segs ∧
    value o = pass_value int_of_text (fetched r).
Proof.
  unfold relay_direction, try_except, call. simpl.
  destruct (respond E _ (GetAllEntries scanned (scanned_event scanned)
                           from_block latest) w) as [[e | evts] w1]; simpl.
  - destruct (respond E _ (Print _) w1) as [[] w2]; simpl.
    destruct (respond E _ (Print _) w2) as [[] w3]; simpl.
    exists (inl e), []. repeat split; constructor.
  - destruct evts as [| evt rest].
    + simpl. destruct (respond E _ (Print _) w1) as [[] w2]; simpl.
      exists (inr []), []. repeat split; constructor.
    + set (evts := evt :: rest).
      change (pbind (Ret (inr evts)) _)
        with (bind (relay_events int_of_text scanned warden_pk warden_addr
                      evts)
                (fun _ => ret 1)).
      rewrite interp_bind. cbv zeta.
      destruct (relay_events_attempts E scanned warden_pk warden_addr
                  evts w1) as [Hv (segs & Ht & Hs)].
      rewrite Hv. exists (inr evts), segs. unfold pass_value.
      cbn [fetched fetch_notes]. subst evts. cbn [app].
      destruct (first_unreadable int_of_text (evt :: rest));
        cbn [value trace final]; rewrite Ht, ?app_nil_r; done.
Qed.

End Loop.

#[local] Arguments getitem : simpl never.
#[local] Arguments contains : simpl never.
#[local] Arguments relay_direction : simpl never.
#[local] Arguments Z.max : simpl never.
#[local] Arguments Z.sub : simpl never.

Lemma connect_to_source :
  connect_to "source" = (call (NewWeb3 Src avax_rpc);; ret Src).
Proof. reflexivity. Qed.

Lemma connect_to_destination :
  connect_to "destination" = (call (NewWeb3 Dst bsc_rpc);; ret Dst).
Proof. reflexivity. Qed.

Section Shape.

Variable to_checksum_address : json -> result string.
Variable int_of_text : string -> result Z.

#[local] Arguments resolve_warden : simpl never.

Lemma relay_phase_side (scanned : side) (from_src latest_src : Z)
    (from_dst latest_dst : Z) (warden_pk : json) (warden_addr : string) :
  relay_phase int_of_text (side_name scanned) from_src latest_src
              from_dst latest_dst
              warden_pk warden_addr
  = relay_direction int_of_text scanned
      (latest_of scanned from_src from_dst)
      (latest_of scanned latest_src latest_dst)
      warden_pk warden_addr (ret 1).
Proof. by destruct scanned. Qed.

(** A pass either stops before the event query, with no call of the
    relay part made and a result other than 1, or runs the block of its
    direction after the eight calls of the setup. *)
Lemma scan_with_info_shape (E : Env) (scanned : side) (src_meta dst_meta : json)
    (w : world E) :
  let o := interp E (scan_with_info to_checksum_address int_of_text
                       (side_name scanned)
                       src_meta dst_meta) w in
  (Forall (fun c => relay_call c = false) (trace o) ∧ value o ≠ inr 1) ∨
  (∃ latest_src latest_dst a1 b1 a2 b2 warden_pk warden_addr w1,
     truthy src_meta = true ∧ truthy dst_meta = true ∧
     resolve_warden to_checksum_address src_meta dst_meta
       = inr (Some (warden_pk, warden_addr)) ∧
     let latest := latest_of scanned latest_src latest_dst in
     let o' := interp E (relay_direction int_of_text scanned
                           (Z.max (latest - 4) 0) latest
                           warden_pk warden_addr (ret 1)) w1 in
     trace o = (setup_calls latest_src latest_dst a1 b1 a2 b2 ++ trace o')%list ∧
     value o = value o').
Proof.
  unfold scan_with_info.
  destruct (truthy src_meta); [| left; split; [constructor | done]].
  destruct (truthy dst_meta); [| left; split; [constructor | done]].
  rewrite connect_to_source, connect_to_destination.
  unfold instantiate, lift, call, print, ret, bind. simpl.
  answer; [left; split; [repeat constructor | done] |].
  answer; [left; split; [repeat constructor | done] |].
  answer; [left; split; [repeat constructor | done] |].
  destruct x1; simpl;
    [| answer; left; split; [repeat constructor | done]].
  answer; [left; split; [repeat constructor | done] |].
  destruct x1; simpl;
    [| answer; left; split; [repeat constructor | done]].
  answer; [left; split; [repeat constructor | done] |].
  answer; [left; split; [repeat constructor | done] |].
  destruct (getitem src_meta "address") as [? | a1]; simpl;
    [left; split; [repeat constructor | done] |].
  destruct (getitem src_meta "abi") as [? | b1]; simpl;
    [left; split; [repeat constructor | done] |].
  answer; [left; split; [repeat constructor | done] |].
  destruct (getitem dst_meta "address") as [? | a2]; simpl;
    [left; split; [repeat constructor | done] |].
  destruct (getitem dst_meta "abi") as [? | b2]; simpl;
    [left; split; [repeat constructor | done] |].
  answer; [left; split; [repeat constructor | done] |].
  destruct (resolve_warden to_checksum_address src_meta dst_meta)
    as [? | [[warden_pk warden_addr] |]] eqn:Hw; simpl;
    [left; split; [repeat constructor | done] | |
     answer; left; split; [repeat constructor | done]].
  right. rewrite relay_phase_side.
  repeat match goal with u : unit |- _ => destruct u end.
  do 9 eexists. do 3 (split; [reflexivity |]).
  destruct scanned; split; reflexivity.
Qed.

End Shape.

Section Pass.

Variable to_checksum_address : json -> result string.
Variable int_of_text : string -> result Z.

Lemma valid_chain (chain : string) :
  chain ∈ ["source"; "destination"] -> ∃ scanned, chain = side_name scanned.
Proof.
  intros H. apply elem_of_cons in H as [-> | H]; [by exists Src |].
  apply elem_of_cons in H as [-> | H]; [by exists Dst |].
  by apply elem_of_nil in H.
Qed.

Lemma get_contract_info_run (E : Env) (chain contract_info : string)
    (w : world E) :
  let o := interp E (get_contract_info chain contract_info) w in
  (∃ e line, trace o = [CLoadJson contract_info (inl e); CPrint line] ∧
             value o = inr (JInt 0)) ∨
  (∃ contracts, trace o = [CLoadJson contract_info (inr contracts)] ∧
                value o = getitem contracts chain ∧
                final o = (respond E _ (LoadJson contract_info) w).2).
Proof.
  unfold get_contract_info, try_except, bind, call, print, ret, lift. simpl.
  destruct (respond E _ (LoadJson contract_info) w) as [[e | c] w1]; simpl.
  - answer. left. by do 2 eexists.
  - right. by eexists.
Qed.

(** A pass makes a web3 call only after both entries were read and
    found present and truthy; the rest of its trace is then that of
    lines 58-173. *)
Lemma scan_blocks_loads (E : Env) (chain contract_info : string)
    (w : world E) :
  let o := interp E (scan_blocks to_checksum_address int_of_text chain
                       contract_info) w in
  (Forall (fun c => web3_call c = false) (trace o) ∧ value o ≠ inr 1) ∨
  (∃ scanned c1 c2 src_meta dst_meta w1,
     chain = side_name scanned ∧
     getitem c1 "source" = inr src_meta ∧
     getitem c2 "destination" = inr dst_meta ∧
     truthy src_meta = true ∧ truthy dst_meta = true ∧
     let o1 := interp E (scan_with_info to_checksum_address int_of_text chain
                           src_meta dst_meta) w1 in
     trace o = CLoadJson contract_info (inr c1) ::
               CLoadJson contract_info (inr c2) :: trace o1 ∧
     value o = value o1).
Proof.
  unfold scan_blocks. case_bool_decide as Hin.
  { left. unfold print, bind, ret. simpl. answer.
    split; [repeat constructor | done]. }
  destruct (valid_chain _ Hin) as [scanned ->].
  rewrite interp_bind. cbv zeta.
  destruct (get_contract_info_run E "source" contract_info w)
    as [(e & line & Ht & Hv) | (c1 & Ht & Hv & _)]; rewrite Hv, Ht.
  { (* the first read failed: the entry is 0 and the pass stops after the
       second read *)
    cbn [value trace final]. rewrite interp_bind. cbv zeta.
    left.
    destruct (get_contract_info_run E "destination" contract_info
                (final (interp E (get_contract_info "source" contract_info) w)))
      as [(e' & line' & Ht' & Hv') | (c2 & Ht' & Hv' & _)]; rewrite Hv', Ht'.
    - cbn. split; [repeat constructor | done].
    - destruct (getitem c2 "destination"); cbn;
        (split; [repeat constructor | done]). }
  destruct (getitem c1 "source") as [e | src_meta] eqn:H1;
    cbn [value trace final].
  { left. split; [repeat constructor | done]. }
  rewrite interp_bind. cbv zeta.
  match goal with |- context [interp E (get_contract_info "destination" _) ?w0] =>
    destruct (get_contract_info_run E "destination" contract_info w0)
      as [(e' & line' & Ht' & Hv') | (c2 & Ht' & Hv' & _)]; rewrite Hv', Ht';
    set (w1 := final (interp E (get_contract_info "destination"
                                  contract_info) w0))
  end.
  { left. cbn [value trace final].
    unfold scan_with_info. cbn [truthy]. rewrite orb_true_r. cbn.
    split; [repeat constructor | done]. }
  destruct (getitem c2 "destination") as [e | dst_meta] eqn:H2;
    cbn [value trace final].
  { left. split; [repeat constructor | done]. }
  destruct (truthy src_meta) eqn:Hs;
    [| left; unfold scan_with_info; rewrite Hs; cbn;
       split; [repeat constructor | done]].
  destruct (truthy dst_meta) eqn:Hd;
    [| left; unfold scan_with_info; rewrite Hs, Hd; cbn;
       split; [repeat constructor | done]].
  right. exists scanned, c1, c2, src_meta, dst_meta, w1.
  by repeat split.
Qed.

Lemma web3_free_quiet (t : list Call) :
  Forall (fun c => web3_call c = false) t ->
  Forall (fun c => relay_call c = false) t.
Proof. intros H. eapply Forall_impl; [exact H | by intros []]. Qed.

Lemma pass_shape (E : Env) (chain contract_info : string) (w : world E) :
  let o := interp E (scan_blocks to_checksum_address int_of_text chain
                       contract_info) w in
  (Forall (fun c => relay_call c = false) (trace o) ∧ value o ≠ inr 1) ∨
  (∃ scanned, chain = side_name scanned ∧
              Reached to_checksum_address int_of_text contract_info scanned
                      (trace o) (value o)).
Proof.
  destruct (scan_blocks_loads E chain contract_info w)
    as [[Hq Hv] | (scanned & c1 & c2 & src_meta & dst_meta & w1 & -> &
                   H1 & H2 & Hs & Hd & Ht & Hv)]; cbv zeta.
  { left. split; [by apply web3_free_quiet | done]. }
  cbv zeta in Ht, Hv. rewrite Ht, Hv.
  destruct (scan_with_info_shape to_checksum_address int_of_text E scanned
              src_meta dst_meta w1)
    as [[Hq Hv1] | (ls & ld & a1 & b1 & a2 & b2 & pk & addr & w2 &
                    Ht1 & Ht2 & Hw & Htr & Hval)].
  { left. split; [| done]. by repeat constructor. }
  right. exists scanned. split; [done |].
  destruct (relay_direction_shape int_of_text E scanned
              (Z.max (latest_of scanned ls ld - 4) 0)
              (latest_of scanned ls ld) pk addr w2)
    as (r & segs & Hd' & Hs' & Hc).
  cbv zeta in Htr, Hval. rewrite Hd' in Htr. rewrite Hc in Hval.
  eapply reached; eauto.
  unfold pass_trace. rewrite Htr. reflexivity.
Qed.

End Pass.

(** ** What the attempts leave in a trace *)

Lemma printed_app (t1 t2 : list Call) :
  printed (t1 ++ t2) = (printed t1 ++ printed t2)%list.
Proof. apply omap_app. Qed.

Lemma sent_count_app (s : side) (t1 t2 : list Call) :
  sent_count s (t1 ++ t2) = (sent_count s t1 + sent_count s t2)%nat.
Proof.
  unfold sent_count. by rewrite printed_app, List.filter_app, length_app.
Qed.

Lemma failed_count_app (t1 t2 : list Call) :
  failed_count (t1 ++ t2) = (failed_count t1 + failed_count t2)%nat.
Proof.
  unfold failed_count. by rewrite printed_app, List.filter_app, length_app.
Qed.

Lemma accepted_count_app (t1 t2 : list Call) :
  accepted_count (t1 ++ t2) = (accepted_count t1 + accepted_count t2)%nat.
Proof. unfold accepted_count. by rewrite List.filter_app, length_app. Qed.

Lemma nonce_reads_app (t1 t2 : list Call) :
  nonce_reads (t1 ++ t2) = (nonce_reads t1 ++ nonce_reads t2)%list.
Proof. apply omap_app. Qed.

Lemma event_queries_app (t1 t2 : list Call) :
  event_queries (t1 ++ t2) = (event_queries t1 ++ event_queries t2)%list.
Proof. apply omap_app. Qed.

Lemma heights_app (t1 t2 : list Call) :
  heights (t1 ++ t2) = (heights t1 ++ heights t2)%list.
Proof. apply omap_app. Qed.

Lemma signing_keys_app (t1 t2 : list Call) :
  signing_keys (t1 ++ t2) = (signing_keys t1 ++ signing_keys t2)%list.
Proof. apply omap_app. Qed.

Section Attempts.

Context {scanned : side} {warden_pk : json} {warden_addr : string}
        {token recipient : pyval} {amount : Z} {origin : result string}.

Implicit Types (seg : list Call).

Local Abbreviation attempt :=
  (Attempt scanned warden_pk warden_addr token recipient amount origin).

Lemma attempt_nonce_reads seg :
  attempt seg -> nonce_reads seg = [(relay_target scanned, warden_addr)].
Proof. by destruct 1. Qed.

Lemma attempt_event_queries seg : attempt seg -> event_queries seg = [].
Proof. by destruct 1. Qed.

Lemma attempt_heights seg : attempt seg -> heights seg = [].
Proof. by destruct 1. Qed.

(** The contract call is created once the nonce was answered, and handed
    to [build_transaction] once the chain id was answered too. *)
Lemma attempt_function_calls seg :
  attempt seg ->
  function_calls seg =
    if nonce_answered seg
    then [(relay_target scanned,
           {| call_fn := relay_fn scanned; call_token := token;
              call_recipient := recipient; call_amount := amount |})]
    else [].
Proof. by destruct 1. Qed.

Lemma attempt_built_calls seg :
  attempt seg ->
  built_calls seg =
    if reached_build seg
    then [(relay_target scanned,
           {| call_fn := relay_fn scanned; call_token := token;
              call_recipient := recipient; call_amount := amount |})]
    else [].
Proof. by destruct 1. Qed.

(** An attempt starts with its one nonce read, and the transaction it
    builds carries the answer of that read. *)
Lemma attempt_nonce seg :
  attempt seg ->
  ∃ (r : result Z) (rest : list Call),
    seg = CGetTransactionCount (relay_target scanned) warden_addr r :: rest ∧
    nonce_reads rest = [] ∧
    map (fun p => (tx_from p, inr (tx_nonce p))) (built_params rest)
    = (if reached_build rest then [(warden_addr, r)] else []).
Proof. destruct 1; eexists _, _; (split; [reflexivity |]); by split. Qed.


Lemma sent_line_is_sent (shown : string) (tx_hash : list Byte.byte) :
  is_sent_line scanned (sent_line scanned shown tx_hash) = true ∧
  is_failed_line (sent_line scanned shown tx_hash) = false.
Proof. by destruct scanned. Qed.

Lemma failed_line_is_failed (e : exn) :
  is_sent_line scanned (failed_line scanned e) = false ∧
  is_failed_line (failed_line scanned e) = true.
Proof. by destruct scanned. Qed.

(** The line an attempt prints: the audit line when the submission was
    accepted and the hash of the entry could be rendered, a failure line
    otherwise. *)
Lemma attempt_lines seg :
  attempt seg ->
  (∃ shown tx_hash, origin = inr shown ∧
                    printed seg = [sent_line scanned shown tx_hash] ∧
                    accepted_count seg = 1%nat) ∨
  (∃ e, printed seg = [failed_line scanned e] ∧ accepted_count seg = 0%nat) ∨
  (∃ e, origin = inl e ∧ printed seg = [failed_line scanned e] ∧
        accepted_count seg = 1%nat).
Proof. destruct 1; eauto 10. Qed.

Lemma attempt_counts seg :
  attempt seg ->
  (sent_count scanned seg = 1 ∧ failed_count seg = 0 ∧
   accepted_count seg = 1)%nat ∨
  (sent_count scanned seg = 0 ∧ failed_count seg = 1 ∧
   accepted_count seg = 0)%nat ∨
  (sent_count scanned seg = 0 ∧ failed_count seg = 1 ∧
   accepted_count seg = 1 ∧ ∃ e, origin = inl e)%nat.
Proof.
  intros Ha.
  destruct (attempt_lines _ Ha)
    as [(shown & h & _ & Hp & Hc) | [(e & Hp & Hc) | (e & Ho & Hp & Hc)]];
    unfold sent_count, failed_count; rewrite Hp, Hc; simpl.
  - destruct (sent_line_is_sent shown h) as [-> ->]. auto.
  - destruct (failed_line_is_failed e) as [-> ->]. auto.
  - destruct (failed_line_is_failed e) as [-> ->]. eauto 10.
Qed.

Lemma attempt_fresh seg (last : option (side * string * Z))
    (t : list Call) :
  attempt seg ->
  (∀ last', nonces_fresh last' t = true) ->
  nonces_fresh last (seg ++ t) = true.
Proof.
  intros Ha Ht. destruct Ha; simpl;
    rewrite ?bool_decide_true, ?Z.eqb_refl by reflexivity; simpl; apply Ht.
Qed.

Lemma attempt_chain_ids seg (t : list Call) :
  attempt seg ->
  chain_ids_fresh None (seg ++ t) = chain_ids_fresh None t.
Proof.
  destruct 1; simpl;
    rewrite ?bool_decide_true, ?Z.eqb_refl by reflexivity; reflexivity.
Qed.

End Attempts.

Lemma omap_none {A B : Type} (f : A -> option B) (l : list A) :
  Forall (fun c => f c = None) l -> omap f l = [].
Proof. induction 1 as [| c l Hc _ IH]; [done |]. simpl. by rewrite Hc. Qed.

Section Attempted.

Variable int_of_text : string -> result Z.

Context {scanned : side} {warden_pk : json} {warden_addr : string}.

Implicit Types (evts : list Event) (segs : list (list Call)).

Local Abbreviation relayed :=
  (Relayed int_of_text scanned warden_pk warden_addr).

Lemma attempts_nonce_reads evts segs :
  Forall2 relayed evts segs ->
  nonce_reads (concat segs)
  = map (fun _ => (relay_target scanned, warden_addr)) evts.
Proof.
  induction 1 as [| evt seg evts segs (tk & rc & am & _ & Ha) _ IH]; [done |].
  simpl. by rewrite nonce_reads_app, IH, (attempt_nonce_reads _ Ha).
Qed.

Lemma attempts_event_queries evts segs :
  Forall2 relayed evts segs -> event_queries (concat segs) = [].
Proof.
  induction 1 as [| evt seg evts segs (tk & rc & am & _ & Ha) _ IH]; [done |].
  simpl. by rewrite event_queries_app, IH, (attempt_event_queries _ Ha).
Qed.

Lemma attempts_heights evts segs :
  Forall2 relayed evts segs -> heights (concat segs) = [].
Proof.
  induction 1 as [| evt seg evts segs (tk & rc & am & _ & Ha) _ IH]; [done |].
  simpl. by rewrite heights_app, IH, (attempt_heights _ Ha).
Qed.

(** One line per entry; as many audit lines as accepted submissions when
    the hash of every entry can be rendered, fewer otherwise. *)
Lemma attempts_counts evts segs :
  Forall2 relayed evts segs ->
  (sent_count scanned (concat segs) + failed_count (concat segs))%nat
  = length evts ∧
  (sent_count scanned (concat segs) <= accepted_count (concat segs))%nat ∧
  (accepted_count (concat segs) <= length evts)%nat ∧
  (forallb hash_shown evts = true ->
   sent_count scanned (concat segs) = accepted_count (concat segs)).
Proof.
  induction 1 as [| evt seg evts segs (tk & rc & am & _ & Ha) _
                    (IH1 & IH2 & IH3 & IH4)]; [done |].
  simpl. rewrite sent_count_app, failed_count_app, accepted_count_app.
  unfold hash_shown at 1.
  destruct (attempt_counts _ Ha)
    as [(-> & -> & ->) | [(-> & -> & ->) | (-> & -> & -> & e & ->)]];
    simpl; repeat split; try lia; try discriminate;
    intros [_ H]%andb_prop; specialize (IH4 H); lia.
Qed.

Lemma attempts_fresh evts segs (last : option (side * string * Z)) :
  Forall2 relayed evts segs -> nonces_fresh last (concat segs) = true.
Proof.
  intros H. revert last.
  induction H as [| evt seg evts segs (tk & rc & am & _ & Ha) _ IH];
    intros last; [done |].
  simpl. by eapply attempt_fresh.
Qed.

Lemma attempts_chain_ids evts segs :
  Forall2 relayed evts segs -> chain_ids_fresh None (concat segs) = true.
Proof.
  induction 1 as [| evt seg evts segs (tk & rc & am & _ & Ha) _ IH]; [done |].
  simpl. by rewrite (attempt_chain_ids _ _ Ha).
Qed.

Lemma attempts_omap_Forall {B : Type} (f : Call -> option B) (Q : B -> Prop)
    evts segs :
  (∀ evt seg, relayed evt seg -> Forall Q (omap f seg)) ->
  Forall2 relayed evts segs ->
  Forall Q (omap f (concat segs)).
Proof.
  intros Hseg. induction 1 as [| evt seg evts segs Ha _ IH]; [constructor |].
  simpl. rewrite omap_app. apply Forall_app. split; [by eapply Hseg | exact IH].
Qed.

Lemma attempts_omap_eq {B : Type} (f g : Call -> option B) evts segs :
  (∀ evt seg, relayed evt seg -> omap f seg = omap g seg) ->
  Forall2 relayed evts segs ->
  omap f (concat segs) = omap g (concat segs).
Proof.
  intros Hseg. induction 1 as [| evt seg evts segs Ha _ IH]; [done |].
  simpl. by rewrite !omap_app, IH, (Hseg _ _ Ha).
Qed.

(** A property of single attempts holds of every segment of a batch. *)
Lemma attempts_impl (Q : Event -> list Call -> Prop) evts segs :
  (∀ evt seg, relayed evt seg -> Q evt seg) ->
  Forall2 relayed evts segs -> Forall2 Q evts segs.
Proof. intros HQ. induction 1; constructor; auto. Qed.

End Attempted.

(** ** What a pass leaves in its trace *)

Lemma In_omap {A B : Type} (f : A -> option B) (c : A) (x : B) (t : list A) :
  In c t -> f c = Some x -> In x (omap f t).
Proof.
  intros Hin Hf. apply list_elem_of_In, list_elem_of_omap.
  exists c. by rewrite list_elem_of_In.
Qed.

Lemma In_event_queries (s : side) (k : event_kind) (f l : Z)
    (r : result (list Event)) (t : list Call) :
  In (CGetAllEntries s k f l r) t -> In (s, k, f, l, r) (event_queries t).
Proof. intros H. by eapply In_omap. Qed.

Lemma In_heights (s : side) (r : result Z) (t : list Call) :
  In (CBlockNumber s r) t -> In (s, r) (heights t).
Proof. intros H. by eapply In_omap. Qed.

Lemma In_connections (s : side) (r : result bool) (t : list Call) :
  In (CIsConnected s r) t -> In (s, r) (connections t).
Proof. intros H. by eapply In_omap. Qed.

Lemma In_config_reads (path : string) (r : result json) (t : list Call) :
  In (CLoadJson path r) t -> In (path, r) (config_reads t).
Proof. intros H. by eapply In_omap. Qed.

Lemma quiet_not_relay (c : Call) (t : list Call) :
  Forall (fun c => relay_call c = false) t -> In c t -> relay_call c = false.
Proof. intros H Hin. by apply (proj1 (List.Forall_forall _ _) H). Qed.

Section PassTrace.

Variable int_of_text : string -> result Z.

Context {contract_info : string} {scanned : side} {c1 c2 : json}
        {latest_src latest_dst : Z} {a1 b1 a2 b2 : json}
        {r : result (list Event)} {segs : list (list Call)}
        {warden_pk : json} {warden_addr : string} {evts : list Event}.

Local Abbreviation t :=
  (pass_trace contract_info scanned c1 c2 latest_src latest_dst
              a1 b1 a2 b2 r segs).

Lemma pass_trace_split :
  t = ((CLoadJson contract_info (inr c1) ::
        CLoadJson contract_info (inr c2) ::
        setup_calls latest_src latest_dst a1 b1 a2 b2 ++
        [CGetAllEntries scanned (scanned_event scanned)
           (Z.max (latest_of scanned latest_src latest_dst - 4) 0)
           (latest_of scanned latest_src latest_dst) r]) ++
       fetch_notes scanned r ++ concat segs)%list.
Proof. reflexivity. Qed.

(** The part of the trace before the query holds no call of the relay
    part. *)
Lemma pass_trace_quiet :
  Forall (fun c => relay_call c = false)
         (CLoadJson contract_info (inr c1) ::
          CLoadJson contract_info (inr c2) ::
          setup_calls latest_src latest_dst a1 b1 a2 b2).
Proof. repeat constructor. Qed.

Lemma pass_signing_keys :
  signing_keys t = signing_keys (concat segs).
Proof.
  rewrite pass_trace_split, !signing_keys_app.
  by destruct r as [? | [| ? ?]].
Qed.

Lemma pass_counts :
  sent_count scanned t = sent_count scanned (concat segs) ∧
  failed_count t = failed_count (concat segs) ∧
  accepted_count t = accepted_count (concat segs).
Proof.
  rewrite pass_trace_split.
  rewrite !sent_count_app, !failed_count_app, !accepted_count_app.
  by destruct scanned, r as [? | [| ? ?]].
Qed.

Hypothesis attempts :
  Forall2 (Relayed int_of_text scanned warden_pk warden_addr) evts segs.

Lemma pass_event_queries :
  event_queries t =
  [(scanned, scanned_event scanned,
    Z.max (latest_of scanned latest_src latest_dst - 4) 0,
    latest_of scanned latest_src latest_dst, r)].
Proof.
  rewrite pass_trace_split, !event_queries_app.
  rewrite (attempts_event_queries _ _ _ attempts), app_nil_r.
  by destruct r as [? | [| ? ?]].
Qed.

Lemma pass_heights :
  heights t = [(Src, inr latest_src); (Dst, inr latest_dst)].
Proof.
  rewrite pass_trace_split, !heights_app.
  rewrite (attempts_heights _ _ _ attempts), app_nil_r.
  by destruct r as [? | [| ? ?]].
Qed.

Lemma pass_nonce_reads :
  nonce_reads t = map (fun _ => (relay_target scanned, warden_addr)) evts.
Proof.
  rewrite pass_trace_split, !nonce_reads_app.
  rewrite (attempts_nonce_reads _ _ _ attempts).
  by destruct r as [? | [| ? ?]].
Qed.

Lemma pass_fresh (last : option (side * string * Z)) :
  nonces_fresh last t = true.
Proof.
  unfold pass_trace. cbn.
  destruct r as [? | [| ? ?]]; cbn;
    apply (attempts_fresh _ _ _ _ attempts).
Qed.

End PassTrace.

Section RelayOnly.

Context {B : Type} (f : Call -> option B).

Hypothesis relay_only : ∀ c, relay_call c = false -> f c = None.
Hypothesis not_query : ∀ s k a b r, f (CGetAllEntries s k a b r) = None.

Lemma pass_omap (contract_info : string) (scanned : side) (c1 c2 : json)
    (ls ld : Z) (a1 b1 a2 b2 : json) (r : result (list Event))
    (segs : list (list Call)) :
  omap f (pass_trace contract_info scanned c1 c2 ls ld a1 b1 a2 b2 r segs)
  = omap f (concat segs).
Proof using relay_only not_query.
  rewrite pass_trace_split, !omap_app.
  rewrite (omap_none f (_ :: _)), (omap_none f (fetch_notes _ _)); [done | |].
  - destruct r as [? | [| ? ?]]; repeat constructor; by apply relay_only.
  - unfold setup_calls. simpl.
    repeat (constructor; [first [by apply relay_only | apply not_query] |]).
    constructor.
Qed.

Lemma quiet_omap (t : list Call) :
  Forall (fun c => relay_call c = false) t -> omap f t = [].
Proof using relay_only.
  intros H. apply omap_none. eapply Forall_impl; [exact H |]. auto.
Qed.

End RelayOnly.

(** ** How a pass ends *)

Section Ending.

Variable to_checksum_address : json -> result string.
Variable int_of_text : string -> result Z.

Local Abbreviation scan := (scan_blocks to_checksum_address int_of_text).

#[local] Arguments resolve_warden : simpl never.

(** Lines 58-173 either stop before the event query in one of the ways
    of [Stopped], or run the block of the direction after the setup. *)
Lemma scan_with_info_cases (E : Env) (scanned : side)
    (src_meta dst_meta : json) (w : world E) :
  let o := interp E (scan_with_info to_checksum_address int_of_text
                       (side_name scanned) src_meta dst_meta) w in
  Stopped to_checksum_address src_meta dst_meta (trace o) (value o) ∨
  (∃ latest_src latest_dst a1 b1 a2 b2 warden_pk warden_addr w1,
     getitem src_meta "address" = inr a1 ∧
     getitem dst_meta "address" = inr a2 ∧
     resolve_warden to_checksum_address src_meta dst_meta
       = inr (Some (warden_pk, warden_addr)) ∧
     let latest := latest_of scanned latest_src latest_dst in
     let o' := interp E (relay_direction int_of_text scanned
                           (Z.max (latest - 4) 0) latest
                           warden_pk warden_addr (ret 1)) w1 in
     trace o = (setup_calls latest_src latest_dst a1 b1 a2 b2 ++ trace o')%list
     ∧ value o = value o').
Proof.
  unfold scan_with_info.
  destruct (truthy src_meta) eqn:Hs;
    [| left; by apply stop_falsy; rewrite Hs].
  destruct (truthy dst_meta) eqn:Hd;
    [| left; by apply stop_falsy; rewrite Hs, Hd].
  rewrite connect_to_source, connect_to_destination.
  unfold instantiate, lift, call, print, ret, bind. simpl.
  answer; [left; constructor |].
  answer; [left; destruct x; constructor |].
  answer; [left; destruct x, x0; constructor |].
  destruct x, x0, x1; simpl;
    [| answer; left; constructor].
  answer; [left; constructor |].
  destruct x; simpl;
    [| answer; left; constructor].
  answer; [left; constructor |].
  answer; [left; constructor |].
  destruct (getitem src_meta "address") as [? | a1] eqn:Ha1; simpl;
    [left; by constructor |].
  destruct (getitem src_meta "abi") as [? | b1] eqn:Hb1; simpl;
    [left; by econstructor |].
  answer; [left; by constructor |].
  destruct (getitem dst_meta "address") as [? | a2] eqn:Ha2; simpl;
    [left; destruct x1; by econstructor |].
  destruct (getitem dst_meta "abi") as [? | b2] eqn:Hb2; simpl;
    [left; destruct x1; by econstructor |].
  answer; [left; destruct x1; by constructor |].
  destruct x1, x2.
  destruct (resolve_warden to_checksum_address src_meta dst_meta)
    as [? | [[warden_pk warden_addr] |]] eqn:Hw; simpl.
  - left. by apply stop_warden_raised.
  - right. rewrite relay_phase_side. do 9 eexists.
    do 3 (split; [reflexivity |]). destruct scanned; split; reflexivity.
  - answer. left. by apply stop_no_warden.
Qed.

(** The readings of a trace that stopped before the event query. *)
Lemma stopped_quiet (src_meta dst_meta : json) (t : list Call)
    (v : result Z) :
  Stopped to_checksum_address src_meta dst_meta t v ->
  Forall (fun c => relay_call c = false) t ∧ v ≠ inr 1.
Proof. destruct 1; split; try done; repeat constructor. Qed.

Lemma pass_value_code (evts : list Event) :
  pass_value int_of_text evts = inr 0 ∨
  pass_value int_of_text evts = inr 1 ∨
  ∃ e, pass_value int_of_text evts = inl e.
Proof.
  unfold pass_value. destruct (first_unreadable int_of_text evts); [eauto |].
  destruct evts; auto.
Qed.

Lemma pass_value_one (evts : list Event) :
  pass_value int_of_text evts = inr 1 ↔
  evts ≠ [] ∧ forallb (readable int_of_text) evts = true.
Proof.
  unfold pass_value. rewrite <- first_unreadable_none.
  destruct (first_unreadable int_of_text evts); [by split; [| intros []] |].
  destruct evts; split; try done. by intros [].
Qed.

Lemma pass_value_readable (evts : list Event) :
  forallb (readable int_of_text) evts = true ->
  pass_value int_of_text evts = inr (pass_code evts).
Proof.
  unfold pass_value. intros H%first_unreadable_none. by rewrite H.
Qed.

Lemma scan_with_info_code (E : Env) (scanned : side)
    (src_meta dst_meta : json) (w : world E) :
  let v := value (interp E (scan_with_info to_checksum_address int_of_text
                              (side_name scanned) src_meta dst_meta) w) in
  v = inr 0 ∨ v = inr 1 ∨ ∃ e, v = inl e.
Proof.
  intros v. subst v.
  destruct (scan_with_info_cases E scanned src_meta dst_meta w)
    as [HS | (ls & ld & a1 & b1 & a2 & b2 & pk & addr & w2 &
              _ & _ & _ & _ & Hval)].
  - destruct HS; eauto.
  - cbv zeta in Hval. rewrite Hval.
    destruct (relay_direction_shape int_of_text E scanned
                (Z.max (latest_of scanned ls ld - 4) 0)
                (latest_of scanned ls ld) pk addr w2)
      as (r & segs & _ & _ & ->).
    apply pass_value_code.
Qed.

(** A pass returns 0 or 1, or raises. *)
Lemma scan_blocks_code (E : Env) (chain contract_info : string)
    (w : world E) :
  let v := value (interp E (scan chain contract_info) w) in
  v = inr 0 ∨ v = inr 1 ∨ ∃ e, v = inl e.
Proof.
  intros v. subst v. unfold scan_blocks. case_bool_decide as Hin.
  { unfold print, bind, ret. simpl. answer. by left. }
  destruct (valid_chain _ Hin) as [scanned ->].
  rewrite interp_bind. cbv zeta.
  destruct (value (interp E (get_contract_info "source" contract_info) w))
    as [e | src_meta]; cbn [value]; [eauto |].
  rewrite interp_bind. cbv zeta.
  match goal with
  | |- context [interp E (get_contract_info "destination" _) ?w0] =>
      destruct (value (interp E (get_contract_info "destination"
                                   contract_info) w0))
        as [e | dst_meta]; cbn [value]; [eauto |]
  end.
  apply scan_with_info_code.
Qed.

(** What is known of a pass in whose trace an event query occurs. *)
Lemma query_inv (E : Env) (chain contract_info : string) (w : world E)
    (s : side) (k : event_kind) (from_block to_block : Z)
    (r : result (list Event)) :
  let o := interp E (scan chain contract_info) w in
  In (CGetAllEntries s k from_block to_block r) (trace o) ->
  ∃ c1 c2 src_meta dst_meta ls ld a1 b1 a2 b2 pk addr segs,
    chain = side_name s ∧ k = scanned_event s ∧
    from_block = Z.max (latest_of s ls ld - 4) 0 ∧
    to_block = latest_of s ls ld ∧
    getitem c1 "source" = inr src_meta ∧
    getitem c2 "destination" = inr dst_meta ∧
    resolve_warden to_checksum_address src_meta dst_meta
      = inr (Some (pk, addr)) ∧
    trace o = pass_trace contract_info s c1 c2 ls ld a1 b1 a2 b2 r segs ∧
    Forall2 (Relayed int_of_text s pk addr)
            (readable_prefix int_of_text (fetched r)) segs ∧
    value o = pass_value int_of_text (fetched r).
Proof.
  intros o Hin. subst o.
  destruct (pass_shape to_checksum_address int_of_text E chain
              contract_info w)
    as [[Hq _] | (scanned & -> & HR)].
  { by apply (quiet_not_relay _ _ Hq) in Hin. }
  destruct HR as [c1 c2 src_meta dst_meta ls ld a1 b1 a2 b2 pk addr r0 segs
                    H1 H2 _ _ Hw Ht Hs Hv].
  cbv zeta in Ht. rewrite Ht in *. clear Ht. rewrite Hv.
  apply In_event_queries in Hin as Hq.
  rewrite (pass_event_queries _ Hs) in Hq.
  destruct Hq as [Hq | []]. injection Hq as <- <- <- <- <-.
  exists c1, c2, src_meta, dst_meta, ls, ld, a1, b1, a2, b2, pk, addr, segs.
  by repeat split.
Qed.

(** Every pass either makes no call of the relay part, or has the trace
    of a pass that reached the query. *)
Lemma pass_relay_cases (E : Env) (chain contract_info : string)
    (w : world E) :
  let o := interp E (scan chain contract_info) w in
  Forall (fun c => relay_call c = false) (trace o) ∨
  (∃ s c1 c2 ls ld a1 b1 a2 b2 r pk addr segs,
     chain = side_name s ∧
     trace o = pass_trace contract_info s c1 c2 ls ld a1 b1 a2 b2 r segs ∧
     Forall2 (Relayed int_of_text s pk addr)
             (readable_prefix int_of_text (fetched r)) segs).
Proof.
  intros o. subst o.
  destruct (pass_shape to_checksum_address int_of_text E chain
              contract_info w)
    as [[Hq _] | (scanned & -> & HR)]; [by left |].
  destruct HR as [c1 c2 src_meta dst_meta ls ld a1 b1 a2 b2 pk addr r0 segs
                    _ _ _ _ _ Ht Hs Hv].
  right. exists scanned, c1, c2, ls, ld, a1, b1, a2, b2, r0, pk, addr, segs.
  by repeat split.
Qed.

(** A pass makes no web3 call, or stops during the setup, or reaches
    the event query. *)
Lemma pass_cases (E : Env) (chain contract_info : string) (w : world E) :
  let o := interp E (scan chain contract_info) w in
  (Forall (fun c => web3_call c = false) (trace o) ∧ value o ≠ inr 1) ∨
  (∃ c1 c2 src_meta dst_meta t1,
     getitem c1 "source" = inr src_meta ∧
     getitem c2 "destination" = inr dst_meta ∧
     truthy src_meta = true ∧ truthy dst_meta = true ∧
     trace o = CLoadJson contract_info (inr c1) ::
               CLoadJson contract_info (inr c2) :: t1 ∧
     Stopped to_checksum_address src_meta dst_meta t1 (value o)) ∨
  (∃ s c1 c2 src_meta dst_meta ls ld a1 b1 a2 b2 r pk addr segs,
     chain = side_name s ∧
     getitem c1 "source" = inr src_meta ∧
     getitem c2 "destination" = inr dst_meta ∧
     truthy src_meta = true ∧ truthy dst_meta = true ∧
     resolve_warden to_checksum_address src_meta dst_meta
       = inr (Some (pk, addr)) ∧
     trace o = pass_trace contract_info s c1 c2 ls ld a1 b1 a2 b2 r segs ∧
     Forall2 (Relayed int_of_text s pk addr)
             (readable_prefix int_of_text (fetched r)) segs ∧
     value o = pass_value int_of_text (fetched r)).
Proof.
  intros o. subst o.
  destruct (scan_blocks_loads to_checksum_address int_of_text E chain
              contract_info w)
    as [Hq | (scanned & c1 & c2 & src_meta & dst_meta & w1 & -> &
              H1 & H2 & Hs & Hd & Ht & Hv)]; [by left |].
  right. cbv zeta in Ht, Hv. rewrite Ht, Hv.
  destruct (scan_with_info_cases E scanned src_meta dst_meta w1)
    as [HS | (ls & ld & a1 & b1 & a2 & b2 & pk & addr & w2 &
              _ & _ & Hw & Htr & Hval)].
  - left. exists c1, c2, src_meta, dst_meta. eexists. by repeat split.
  - right.
    destruct (relay_direction_shape int_of_text E scanned
                (Z.max (latest_of scanned ls ld - 4) 0)
                (latest_of scanned ls ld) pk addr w2)
      as (r & segs & Hd' & Hs' & Hc).
    cbv zeta in Htr, Hval. rewrite Hd' in Htr. rewrite Hc in Hval.
    exists scanned, c1, c2, src_meta, dst_meta, ls, ld, a1, b1, a2, b2,
           r, pk, addr, segs.
    repeat split; try assumption.
    unfold pass_trace. by rewrite Htr.
Qed.

End Ending.

(** * The claims *)

Section Claims.

Variable to_checksum_address : json -> result string.
Variable int_of_text : string -> result Z.

Local Abbreviation scan := (scan_blocks to_checksum_address int_of_text).

(** C7.  A direction other than "source" and "destination" is rejected
    at once: the pass prints the validation message, returns 0 and makes
    no other call, so neither the configuration is read nor any web3
    call made. *)
Theorem invalid_direction_rejected (E : Env) (chain contract_info : string)
    (w : world E) :
  chain ≠ "source" -> chain ≠ "destination" ->
  let o := interp E (scan chain contract_info) w in
  value o = inr 0 ∧
  trace o = [CPrint ("Invalid chain: " ++ chain)] ∧
  Forall (fun c => web3_call c = false ∧ rpc_call c = false) (trace o).
Proof.
  intros Hs Hd. unfold scan_blocks.
  rewrite bool_decide_true.
  - unfold print, bind, ret. simpl. answer. repeat split; repeat constructor.
  - intros [-> | H]%elem_of_cons; [done |].
    apply elem_of_cons in H as [-> | H]; [done |].
    by apply elem_of_nil in H.
Qed.

(** C3.  Whenever a pass queries events, the query is for the blocks
    from [max (h - 4) 0] to [h], where [h] is the one height the scanned
    chain answered; the lower bound is never negative and is 0 when
    [h < 4]. *)
Theorem scan_window_clamped (E : Env) (chain contract_info : string)
    (w : world E) (s : side) (k : event_kind) (from_block to_block : Z)
    (r : result (list Event)) :
  let o := interp E (scan chain contract_info) w in
  In (CGetAllEntries s k from_block to_block r) (trace o) ->
  ∃ h : Z,
    In (CBlockNumber s (inr h)) (trace o) ∧
    (∀ r', In (CBlockNumber s r') (trace o) -> r' = inr h) ∧
    from_block = Z.max (h - 4) 0 ∧ to_block = h ∧
    0 <= from_block ∧ (h < 4 -> from_block = 0).
Proof.
  intros o Hin. subst o.
  destruct (query_inv to_checksum_address int_of_text E chain contract_info
              w s k from_block to_block r Hin)
    as (c1 & c2 & src_meta & dst_meta & ls & ld & a1 & b1 & a2 & b2 & pk &
        addr & segs & _ & _ & -> & -> & _ & _ & _ & Ht & Hs & _).
  rewrite Ht.
  exists (latest_of s ls ld). repeat split.
  - unfold pass_trace, setup_calls. destruct s; simpl; auto 10.
  - intros r' Hb.
    apply In_heights in Hb. rewrite (pass_heights _ Hs) in Hb.
    destruct s; simpl in *; intuition congruence.
  - lia.
  - lia.
Qed.

(** C1.  In a pass that fetched the entries [evts], what follows the
    query in the trace is one attempt per entry, in the order of the
    entries.  An attempt is the pipeline of nonce read, contract call,
    chain-id read, build, signature and submission, run up to the first
    of these calls that raised and closed by the failure line, or run
    to its end and closed by the audit line; whichever it is, the
    attempt of the next entry follows it.  The attempts cover every
    entry up to the first whose fields cannot be read by lines 112-115,
    which is the one thing that ends the loop early; when all can be
    read they cover the whole batch and the pass returns 1 (0 for an
    empty batch). *)
Theorem failure_isolation (E : Env) (chain contract_info : string)
    (w : world E) (s : side) (k : event_kind) (from_block to_block : Z)
    (evts : list Event) :
  let o := interp E (scan chain contract_info) w in
  In (CGetAllEntries s k from_block to_block (inr evts)) (trace o) ->
  ∃ (pre : list Call) (segs : list (list Call)) (warden_pk : json)
    (warden_addr : string),
    trace o = (pre ++ CGetAllEntries s k from_block to_block (inr evts) ::
               fetch_notes s (inr evts) ++ concat segs)%list ∧
    Forall (fun c => relay_call c = false) pre ∧
    Forall2 (Relayed int_of_text s warden_pk warden_addr)
            (readable_prefix int_of_text evts) segs ∧
    value o = pass_value int_of_text evts ∧
    (forallb (readable int_of_text) evts = true ->
     Forall2 (Relayed int_of_text s warden_pk warden_addr) evts segs ∧
     value o = inr (match evts with [] => 0 | _ :: _ => 1 end)).
Proof.
  intros o Hin. subst o.
  destruct (query_inv to_checksum_address int_of_text E chain contract_info
              w s k from_block to_block _ Hin)
    as (c1 & c2 & src_meta & dst_meta & ls & ld & a1 & b1 & a2 & b2 & pk &
        addr & segs & _ & -> & -> & -> & _ & _ & _ & Ht & Hs & Hv).
  cbn [fetched] in Hs, Hv.
  exists (CLoadJson contract_info (inr c1) ::
          CLoadJson contract_info (inr c2) ::
          setup_calls ls ld a1 b1 a2 b2), segs, pk, addr.
  split; [exact Ht |]. split; [apply pass_trace_quiet |].
  split; [exact Hs |]. split; [exact Hv |].
  intros Hall. split.
  - rewrite readable_prefix_all in Hs; [exact Hs |].
    by apply first_unreadable_none.
  - rewrite Hv. by apply pass_value_readable.
Qed.

(** C2.  In a pass that fetched the entries [evts], the attempt made
    for an entry creates its contract call, once the nonce read has
    answered, and hands it to [build_transaction], once the chain-id
    read has answered too, with the amount [int(args['amount'])] read
    from that entry; when the entry holds an integer [z] the amount is
    [z] itself.  Amounts are unbounded integers: no width is involved
    and nothing is rounded. *)
Theorem amount_preserved (E : Env) (chain contract_info : string)
    (w : world E) (s : side) (k : event_kind) (from_block to_block : Z)
    (evts : list Event) :
  let o := interp E (scan chain contract_info) w in
  In (CGetAllEntries s k from_block to_block (inr evts)) (trace o) ->
  ∃ (pre : list Call) (segs : list (list Call)) (warden_pk : json)
    (warden_addr : string),
    trace o = (pre ++ CGetAllEntries s k from_block to_block (inr evts) ::
               fetch_notes s (inr evts) ++ concat segs)%list ∧
    Forall (fun c => relay_call c = false) pre ∧
    Forall2
      (fun evt seg =>
         ∃ (token recipient : pyval) (amount : Z),
           read_fields int_of_text evt = inr (token, recipient, amount) ∧
           (∀ args z, py_lookup (fields evt) "args" = Some args ->
                      py_getitem args "amount" = inr (PInt z) ->
                      amount = z) ∧
           Attempt s warden_pk warden_addr token recipient amount
                   (origin_hex evt) seg ∧
           Forall (fun sc => call_amount (snd sc) = amount)
                  (function_calls seg ++ built_calls seg) ∧
           length (function_calls seg)
           = (if nonce_answered seg then 1 else 0)%nat ∧
           length (built_calls seg)
           = (if reached_build seg then 1 else 0)%nat)
      (readable_prefix int_of_text evts) segs ∧
    (forallb (readable int_of_text) evts = true ->
     readable_prefix int_of_text evts = evts).
Proof.
  intros o Hin. subst o.
  destruct (query_inv to_checksum_address int_of_text E chain contract_info
              w s k from_block to_block _ Hin)
    as (c1 & c2 & src_meta & dst_meta & ls & ld & a1 & b1 & a2 & b2 & pk &
        addr & segs & _ & -> & -> & -> & _ & _ & _ & Ht & Hs & Hv).
  cbn [fetched] in Hs.
  exists (CLoadJson contract_info (inr c1) ::
          CLoadJson contract_info (inr c2) ::
          setup_calls ls ld a1 b1 a2 b2), segs, pk, addr.
  split; [exact Ht |]. split; [apply pass_trace_quiet |]. split.
  - eapply attempts_impl; [| exact Hs].
    intros evt seg (token & recipient & amount & Hr & Ha).
    exists token, recipient, amount. split; [exact Hr |]. split.
    + intros args z Hargs Hz.
      apply read_fields_inv in Hr as (args' & a & Hargs' & _ & _ & Ha' & Hi).
      rewrite Hargs in Hargs'. injection Hargs' as <-.
      rewrite Hz in Ha'. injection Ha' as <-.
      simpl in Hi. by injection Hi.
    + split; [exact Ha |].
      rewrite (attempt_function_calls _ Ha), (attempt_built_calls _ Ha).
      destruct (nonce_answered seg), (reached_build seg);
        repeat split; repeat constructor.
  - intros Hall. by apply readable_prefix_all, first_unreadable_none.
Qed.


(** C5, as the code has it.  In a pass that fetched [N] entries whose
    fields can all be read and whose transaction hashes can all be
    rendered, and of which [K] submissions were accepted, what follows
    the query is one attempt per entry, in the order of the entries; the
    loop prints [K] audit lines and [N - K] failure lines; and what the
    pass returns is the result code, 1 (0 for an empty batch), whatever
    [K] is. *)
Theorem outcomes_logged_not_returned (E : Env) (chain contract_info : string)
    (w : world E) (s : side) (k : event_kind) (from_block to_block : Z)
    (evts : list Event) :
  let o := interp E (scan chain contract_info) w in
  In (CGetAllEntries s k from_block to_block (inr evts)) (trace o) ->
  forallb (readable int_of_text) evts = true ->
  forallb hash_shown evts = true ->
  (∃ (pre : list Call) (segs : list (list Call)) (warden_pk : json)
     (warden_addr : string),
     trace o = (pre ++ CGetAllEntries s k from_block to_block (inr evts) ::
                fetch_notes s (inr evts) ++ concat segs)%list ∧
     Forall (fun c => relay_call c = false) pre ∧
     Forall2 (Relayed int_of_text s warden_pk warden_addr) evts segs) ∧
  sent_count s (trace o) = accepted_count (trace o) ∧
  failed_count (trace o) = (length evts - accepted_count (trace o))%nat ∧
  (accepted_count (trace o) <= length evts)%nat ∧
  value o = inr (match evts with [] => 0 | _ :: _ => 1 end).
Proof.
  intros o Hin Hall Hshown. subst o.
  destruct (query_inv to_checksum_address int_of_text E chain contract_info
              w s k from_block to_block _ Hin)
    as (c1 & c2 & src_meta & dst_meta & ls & ld & a1 & b1 & a2 & b2 & pk &
        addr & segs & _ & -> & -> & -> & _ & _ & _ & Ht & Hs & Hv).
  cbn [fetched] in Hs, Hv.
  rewrite readable_prefix_all in Hs by (by apply first_unreadable_none).
  rewrite pass_value_readable in Hv by exact Hall.
  split.
  { exists (CLoadJson contract_info (inr c1) ::
            CLoadJson contract_info (inr c2) ::
            setup_calls ls ld a1 b1 a2 b2), segs, pk, addr.
    split; [exact Ht |]. split; [apply pass_trace_quiet | exact Hs]. }
  rewrite Ht, Hv.
  destruct (pass_counts (contract_info := contract_info) (scanned := s)
              (c1 := c1) (c2 := c2) (latest_src := ls) (latest_dst := ld)
              (a1 := a1) (b1 := b1) (a2 := a2) (b2 := b2)
              (r := inr evts) (segs := segs)) as (-> & -> & ->).
  destruct (attempts_counts _ _ _ Hs) as (H1 & H2 & H3 & H4).
  specialize (H4 Hshown).
  repeat split; [exact H4 | lia | lia].
Qed.

(** C6.  In a pass that fetched the entries [evts], the warden is the
    one lines 81-89 resolve from the two entries of the configuration,
    and the attempt made for an entry starts with its one nonce read:
    [get_transaction_count] on the target chain for the warden address.
    The transaction the attempt builds, if it gets that far, is sent
    from the warden address with the answer of that read as its nonce.
    Over the whole trace, a transaction is built only with the answer of
    the last nonce read, with no transaction built or submitted since
    that read. *)
Theorem nonce_read_per_event (E : Env) (chain contract_info : string)
    (w : world E) (s : side) (k : event_kind) (from_block to_block : Z)
    (evts : list Event) :
  let o := interp E (scan chain contract_info) w in
  let target := match s with Src => Dst | Dst => Src end in
  In (CGetAllEntries s k from_block to_block (inr evts)) (trace o) ->
  ∃ (c1 c2 src_meta dst_meta : json) (setup : list Call)
    (segs : list (list Call)) (warden_pk : json) (warden_addr : string),
    getitem c1 "source" = inr src_meta ∧
    getitem c2 "destination" = inr dst_meta ∧
    resolve_warden to_checksum_address src_meta dst_meta
      = inr (Some (warden_pk, warden_addr)) ∧
    trace o = (CLoadJson contract_info (inr c1) ::
               CLoadJson contract_info (inr c2) ::
               setup ++
               CGetAllEntries s k from_block to_block (inr evts) ::
               fetch_notes s (inr evts) ++ concat segs)%list ∧
    Forall (fun c => relay_call c = false) setup ∧
    Forall2
      (fun evt seg =>
         Relayed int_of_text s warden_pk warden_addr evt seg ∧
         ∃ (answer : result Z) (rest : list Call),
           seg = CGetTransactionCount target warden_addr answer :: rest ∧
           nonce_reads rest = [] ∧
           map (fun p => (tx_from p, inr (tx_nonce p))) (built_params rest)
           = (if reached_build rest then [(warden_addr, answer)] else []))
      (readable_prefix int_of_text evts) segs ∧
    nonce_reads (trace o)
    = map (fun _ => (target, warden_addr))
          (readable_prefix int_of_text evts) ∧
    nonces_fresh None (trace o) = true ∧
    (forallb (readable int_of_text) evts = true ->
     readable_prefix int_of_text evts = evts).
Proof.
  intros o target Hin. subst o.
  destruct (query_inv to_checksum_address int_of_text E chain contract_info
              w s k from_block to_block _ Hin)
    as (c1 & c2 & src_meta & dst_meta & ls & ld & a1 & b1 & a2 & b2 & pk &
        addr & segs & _ & -> & -> & -> & H1 & H2 & Hw & Ht & Hs & Hv).
  cbn [fetched] in Hs.
  assert (Hg : target = relay_target s) by (subst target; by destruct s).
  exists c1, c2, src_meta, dst_meta, (setup_calls ls ld a1 b1 a2 b2),
         segs, pk, addr.
  do 3 (split; [assumption |]). split; [exact Ht |].
  split; [repeat constructor |]. split; [| split; [| split]].
  - eapply attempts_impl; [| exact Hs].
    intros evt seg HR. split; [exact HR |].
    destruct HR as (token & recipient & amount & _ & Ha).
    rewrite Hg. exact (attempt_nonce _ Ha).
  - rewrite Ht, Hg. apply (pass_nonce_reads _ Hs).
  - rewrite Ht. apply (pass_fresh _ Hs).
  - intros Hall. by apply readable_prefix_all, first_unreadable_none.
Qed.

(** C8, as the code has it.  Every pass either makes no web3 call at
    all and does not return 1, or has read both entries of the
    configuration, each present and truthy.  In the second case, when
    neither entry carries a warden key, the pass makes no event query
    and no call for any event and does not return 1; it stops in one of
    the ways of [Stopped]; and it prints that the warden was not found
    exactly when the eight setup calls of lines 62-76 (two sessions, two
    connection tests answered true, two height reads, two contract
    objects) had all succeeded, that line being then the last call of
    the pass and its result 0. *)
Theorem config_errors_abort (E : Env) (chain contract_info : string)
    (w : world E) :
  let o := interp E (scan chain contract_info) w in
  let not_found :=
    CPrint "warden key/address not found in contract_info.json" in
  (Forall (fun c => web3_call c = false) (trace o) ∧ value o ≠ inr 1) ∨
  (∃ c1 c2 src_meta dst_meta rest,
     trace o = CLoadJson contract_info (inr c1) ::
               CLoadJson contract_info (inr c2) :: rest ∧
     getitem c1 "source" = inr src_meta ∧
     getitem c2 "destination" = inr dst_meta ∧
     truthy src_meta = true ∧ truthy dst_meta = true ∧
     (resolve_warden to_checksum_address src_meta dst_meta = inr None ->
      Forall (fun c => relay_call c = false) (trace o) ∧ value o ≠ inr 1 ∧
      Stopped to_checksum_address src_meta dst_meta rest (value o) ∧
      (In not_found (trace o) ↔
       ∃ ls ld a1 b1 a2 b2,
         rest = (setup_calls ls ld a1 b1 a2 b2 ++ [not_found])%list ∧
         value o = inr 0))).
Proof.
  intros o not_found. subst o.
  destruct (pass_cases to_checksum_address int_of_text E chain
              contract_info w)
    as [Hq | [(c1 & c2 & src_meta & dst_meta & t1 & H1 & H2 & Hs & Hd & Ht &
               HS) |
              (s & c1 & c2 & src_meta & dst_meta & ls & ld & a1 & b1 & a2 &
               b2 & r & pk & addr & segs & -> & H1 & H2 & Hs & Hd & Hw & Ht &
               _)]]; [by left | |]; right; cbv zeta in *.
  - exists c1, c2, src_meta, dst_meta, t1.
    do 5 (split; [assumption |]).
    intros Hnone. destruct (stopped_quiet _ _ _ _ _ HS) as [Hq Hv].
    split; [rewrite Ht; by repeat constructor |].
    split; [exact Hv |]. split; [exact HS |].
    rewrite Ht. split.
    + intros [Hin | [Hin | Hin]]; [discriminate Hin | discriminate Hin |].
      destruct HS;
        try (unfold setup_calls in Hin; simpl in Hin;
             repeat match goal with
                    | H : _ ∨ _ |- _ => destruct H as [H | H]
                    | H : False |- _ => destruct H
                    end; discriminate).
      by do 6 eexists.
    + intros (ls & ld & a1 & b1 & a2 & b2 & -> & _).
      do 2 right. apply in_or_app. right. by left.
  - exists c1, c2, src_meta, dst_meta. eexists.
    split; [exact Ht |]. do 4 (split; [assumption |]).
    intros Hnone. rewrite Hnone in Hw. discriminate Hw.
Qed.

Lemma Forall2_In_r {A B : Type} (P : A -> B -> Prop) (l : list A)
    (k : list B) (y : B) :
  Forall2 P l k -> In y k -> ∃ x, In x l ∧ P x y.
Proof.
  induction 1 as [| x y' l k HP _ IH]; [done |].
  intros [<- | Hin]; [exists x; by split; [left |] |].
  destruct (IH Hin) as (x' & Hx & HP'). exists x'. by split; [right |].
Qed.

(** The keys used to sign are the warden key, once for every
    transaction that was built. *)
Lemma attempts_signed_built (s : side) (pk : json) (addr : string)
    (evts : list Event) (segs : list (list Call)) :
  Forall2 (Relayed int_of_text s pk addr) evts segs ->
  signing_keys (concat segs) = map (fun _ => pk) (built_txs (concat segs)).
Proof.
  induction 1 as [| evt seg evts segs (tk & rc & am & _ & Ha) _ IH]; [done |].
  simpl. unfold built_txs in *.
  rewrite signing_keys_app, omap_app, List.map_app, IH.
  f_equal. by destruct Ha.
Qed.

(** C10.  When both entries are dicts that carry a warden key and a
    warden address the library accepts, the warden is the key and the
    address of the source entry, whatever the destination entry holds.
    A pass over such entries whose setup calls succeeded does not stop
    there: it queries the events of its direction and gives one attempt
    to each entry it reaches, each with the source entry's address for
    the nonce read and the sender and the source entry's key for the
    signature, and it ends as any pass that reached the query does.
    With the key removed from the source entry the warden is that of
    the destination entry. *)
Theorem source_credential_first (src dst : gmap string json)
    (pk a pk' a' : json) (addr addr' : string) :
  src !! "warden_private_key" = Some pk ->
  src !! "warden_address" = Some a ->
  to_checksum_address a = inr addr ->
  dst !! "warden_private_key" = Some pk' ->
  dst !! "warden_address" = Some a' ->
  to_checksum_address a' = inr addr' ->
  (∀ dst_meta : json,
     resolve_warden to_checksum_address (JObj src) dst_meta
     = inr (Some (pk, addr))) ∧
  (∀ (E : Env) (scanned : side) (w : world E) (a2 b2 : json),
     let o := interp E (scan_with_info to_checksum_address int_of_text
                          (side_name scanned) (JObj src) (JObj dst)) w in
     In (CEthContract Dst a2 b2 (inr tt)) (trace o) ->
     ∃ (ls ld : Z) (a1 b1 : json) (r : result (list Event))
       (segs : list (list Call)),
       trace o = (setup_calls ls ld a1 b1 a2 b2 ++
                  CGetAllEntries scanned (scanned_event scanned)
                    (Z.max (latest_of scanned ls ld - 4) 0)
                    (latest_of scanned ls ld) r ::
                  fetch_notes scanned r ++ concat segs)%list ∧
       Forall2 (Relayed int_of_text scanned pk addr)
               (readable_prefix int_of_text (fetched r)) segs ∧
       value o = pass_value int_of_text (fetched r) ∧
       nonce_reads (trace o)
       = map (fun _ => (relay_target scanned, addr))
             (readable_prefix int_of_text (fetched r)) ∧
       signing_keys (trace o) = map (fun _ => pk) (built_txs (trace o))) ∧
  resolve_warden to_checksum_address
    (JObj (delete "warden_private_key" src)) (JObj dst)
    = inr (Some (pk', addr')).
Proof.
  intros Hpk Ha Hc Hpk' Ha' Hc'.
  assert (Hw : ∀ dst_meta,
             resolve_warden to_checksum_address (JObj src) dst_meta
             = inr (Some (pk, addr))).
  { intros dst_meta. unfold resolve_warden, contains, getitem.
    rewrite Hpk, Ha, Hc. by rewrite bool_decide_true by eauto. }
  split; [exact Hw |]. split.
  - intros E scanned w a2 b2 o Hin. subst o.
    destruct (scan_with_info_cases to_checksum_address int_of_text E scanned
                (JObj src) (JObj dst) w)
      as [HS | (ls & ld & a1 & b1 & a2' & b2' & pk0 & addr0 & w2 &
                _ & _ & Hw0 & Htr & Hval)].
    { exfalso.
      destruct HS;
        try match goal with
            | H : resolve_warden _ _ _ = _ |- _ =>
                rewrite Hw in H; discriminate H
            end;
        simpl in Hin;
        repeat match goal with
               | H : _ ∨ _ |- _ => destruct H as [H | H]
               | H : False |- _ => destruct H
               end; discriminate. }
    rewrite Hw in Hw0. injection Hw0 as <- <-.
    destruct (relay_direction_shape int_of_text E scanned
                (Z.max (latest_of scanned ls ld - 4) 0)
                (latest_of scanned ls ld) pk addr w2)
      as (r & segs & Hd & Hs & Hv).
    cbv zeta in Htr, Hval. rewrite Hd in Htr. rewrite Hv in Hval.
    assert (a2' = a2 ∧ b2' = b2) as [-> ->].
    { rewrite Htr in Hin. apply in_app_or in Hin as [Hin | Hin].
      - unfold setup_calls in Hin. simpl in Hin.
        repeat match goal with
               | H : _ ∨ _ |- _ => destruct H as [H | H]
               | H : False |- _ => destruct H
               end; try discriminate.
        by injection Hin.
      - exfalso. destruct Hin as [Hin | Hin]; [discriminate Hin |].
        apply in_app_or in Hin as [Hin | Hin].
        + destruct r as [? | [| ? ?]]; simpl in Hin;
            repeat match goal with
                   | H : _ ∨ _ |- _ => destruct H as [H | H]
                   | H : False |- _ => destruct H
                   end; discriminate.
        + apply in_concat in Hin as (seg & Hseg & Hin).
          destruct (Forall2_In_r _ _ _ _ Hs Hseg)
            as (evt & _ & tk & rc & am & _ & Hatt).
          destruct Hatt; simpl in Hin;
            repeat match goal with
                   | H : _ ∨ _ |- _ => destruct H as [H | H]
                   | H : False |- _ => destruct H
                   end; discriminate. }
    exists ls, ld, a1, b1, r, segs.
    split; [exact Htr |]. split; [exact Hs |]. split; [exact Hval |].
    rewrite Htr.
    change (setup_calls ls ld a1 b1 a2 b2 ++ _)%list
      with (skipn 2 (pass_trace "" scanned JNull JNull ls ld
                       a1 b1 a2 b2 r segs)).
    change (nonce_reads (skipn 2 ?t)) with (nonce_reads t).
    change (signing_keys (skipn 2 ?t)) with (signing_keys t).
    change (built_txs (skipn 2 ?t)) with (built_txs t).
    rewrite (pass_nonce_reads _ Hs), pass_signing_keys.
    split; [reflexivity |].
    unfold built_txs. rewrite pass_omap;
      [| by intros [] | done].
    apply (attempts_signed_built _ _ _ _ _ Hs).
  - unfold resolve_warden, contains, getitem.
    rewrite lookup_delete_eq, Hpk', Ha', Hc'.
    rewrite bool_decide_false by (by intros []).
    by rewrite bool_decide_true by eauto.
Qed.

End Claims.

(** * Runs against the test environment *)

Ltac in_trace := vm_compute; repeat (first [left; reflexivity | right]).

(** The pass over [mock0]: the window is [96, 100], the deposit of block
    90 is not fetched, the second submission is rejected and the third
    deposit is relayed all the same; the nonces are the counts 40, 41
    and again 41 that the chain answered before each transaction. *)
Example pass_mock0 :
  value (pass mock0) = inr 1 ∧
  event_queries (trace (pass mock0))
  = [(Src, Deposit, 96, 100, inr window_events)] ∧
  printed (trace (pass mock0))
  = ["wrap sent on destination for tx 11 -> ab";
     "Failed to call wrap on destination: transaction underpriced";
     "wrap sent on destination for tx 13 -> ab"] ∧
  map (fun sc => call_amount (snd sc)) (built_calls (trace (pass mock0)))
  = [1000; 123456789012345678901234567890; 7] ∧
  omap (fun c => match c with
                 | CBuildTransaction _ _ p _ => Some (tx_nonce p)
                 | _ => None
                 end) (trace (pass mock0))
  = [40; 41; 41].
Proof. vm_compute. repeat split. Qed.

(** The other direction over [mock0]: the height of the destination
    chain is 2, so the window is [0, 2]; the unwrap of block 1 becomes a
    [withdraw] on the source chain. *)
Example pass_destination_mock0 :
  let o := interp mock (scan_blocks mock_checksum mock_int "destination"
                          "contract_info.json") mock0 in
  value o = inr 1 ∧
  event_queries (trace o)
  = [(Dst, Unwrap, 0, 2, inr [deposit 250 1 Byte.x21])] ∧
  built_calls (trace o)
  = [(Src, {| call_fn := withdraw; call_token := token_a;
              call_recipient := recipient_b; call_amount := 250 |})] ∧
  printed (trace o) = ["withdraw sent on source for tx 21 -> ab"].
Proof. vm_compute. repeat split. Qed.

(** With a credential in both entries the pass runs as before, with the
    key and the address of the source entry. *)
Example pass_both_credentials :
  let o := pass (with_config (inr config_both) mock0) in
  value o = inr 1 ∧
  nonce_reads (trace o) = [(Dst, warden_a); (Dst, warden_a); (Dst, warden_a)] ∧
  signing_keys (trace o) = [JStr "0xkeyA"; JStr "0xkeyA"; JStr "0xkeyA"].
Proof. vm_compute. repeat split. Qed.

(** A batch whose second entry holds an amount that is not a number:
    the first entry is relayed, then [int] raises and the pass ends with
    that exception; the third entry is never reached and nothing is
    printed for the second. *)
Example pass_unreadable_entry :
  let o := pass (with_logs unreadable_logs mock0) in
  value o = inl (Raised "ValueError" "invalid literal for int()") ∧
  printed (trace o) = ["wrap sent on destination for tx 11 -> ab"] ∧
  map (fun sc => call_amount (snd sc)) (built_calls (trace o)) = [1000].
Proof. vm_compute. repeat split. Qed.

Lemma invalid_direction_rejected_witness :
  "north" ≠ "source" ∧ "north" ≠ "destination" ∧
  value (interp mock (scan_blocks mock_checksum mock_int "north"
                        "contract_info.json") mock0) = inr 0 ∧
  trace (interp mock (scan_blocks mock_checksum mock_int "north"
                        "contract_info.json") mock0)
  = [CPrint "Invalid chain: north"] ∧
  Forall (fun c => web3_call c = false ∧ rpc_call c = false)
    (trace (interp mock
              (scan_blocks mock_checksum mock_int "north"
                 "contract_info.json")
              mock0)).
Proof.
  split; [discriminate |]. split; [discriminate |].
  apply (invalid_direction_rejected mock_checksum mock_int mock "north"
           "contract_info.json" mock0); discriminate.
Defined.

Lemma scan_window_clamped_witness :
  In (CGetAllEntries Src Deposit 96 100 (inr window_events))
     (trace (pass mock0)) ∧
  ∃ h : Z,
    In (CBlockNumber Src (inr h)) (trace (pass mock0)) ∧
    (∀ r', In (CBlockNumber Src r') (trace (pass mock0)) -> r' = inr h) ∧
    96 = Z.max (h - 4) 0 ∧ 100 = h ∧ 0 <= 96 ∧ (h < 4 -> 96 = 0).
Proof.
  split; [in_trace |].
  apply (scan_window_clamped mock_checksum mock_int mock "source"
           "contract_info.json" mock0 Src Deposit 96 100 (inr window_events)).
  in_trace.
Defined.

(** Over [mock0] the three entries of the window can be read, so each
    gets its attempt, the third after the rejected submission of the
    second, and the pass returns 1. *)
Lemma failure_isolation_witness :
  In (CGetAllEntries Src Deposit 96 100 (inr window_events))
     (trace (pass mock0)) ∧
  In (CSendRawTransaction Dst [Byte.x02]
        (inl (Raised "Web3RPCError" "transaction underpriced")))
     (trace (pass mock0)) ∧
  ∃ (pre : list Call) (segs : list (list Call)) (warden_pk : json)
    (warden_addr : string),
    trace (pass mock0)
    = (pre ++ CGetAllEntries Src Deposit 96 100 (inr window_events) ::
       fetch_notes Src (inr window_events) ++ concat segs)%list ∧
    Forall (fun c => relay_call c = false) pre ∧
    Forall2 (Relayed mock_int Src warden_pk warden_addr) window_events segs ∧
    value (pass mock0) = inr 1.
Proof.
  split; [in_trace |]. split; [in_trace |].
  destruct (failure_isolation mock_checksum mock_int mock "source"
              "contract_info.json" mock0 Src Deposit 96 100 window_events)
    as (pre & segs & pk & addr & Ht & Hq & _ & _ & Hall); [in_trace |].
  destruct (Hall eq_refl) as [Hs Hv].
  exists pre, segs, pk, addr.
  split; [exact Ht |]. split; [exact Hq |]. split; [exact Hs | exact Hv].
Defined.

(** Over [mock0] the amount of the second entry of the window, which
    does not fit in 64 bits, is the amount of the call handed to
    [build_transaction]. *)
Lemma amount_preserved_witness :
  In (CGetAllEntries Src Deposit 96 100 (inr window_events))
     (trace (pass mock0)) ∧
  In (Dst, {| call_fn := wrap; call_token := token_a;
              call_recipient := recipient_b;
              call_amount := 123456789012345678901234567890 |})
     (built_calls (trace (pass mock0))) ∧
  ∃ (pre : list Call) (segs : list (list Call)) (warden_pk : json)
    (warden_addr : string),
    trace (pass mock0)
    = (pre ++ CGetAllEntries Src Deposit 96 100 (inr window_events) ::
       fetch_notes Src (inr window_events) ++ concat segs)%list ∧
    Forall (fun c => relay_call c = false) pre ∧
    Forall2
      (fun evt seg =>
         ∃ (token recipient : pyval) (amount : Z),
           read_fields mock_int evt = inr (token, recipient, amount) ∧
           (∀ args z, py_lookup (fields evt) "args" = Some args ->
                      py_getitem args "amount" = inr (PInt z) ->
                      amount = z) ∧
           Attempt Src warden_pk warden_addr token recipient amount
                   (origin_hex evt) seg ∧
           Forall (fun sc => call_amount (snd sc) = amount)
                  (function_calls seg ++ built_calls seg) ∧
           length (function_calls seg)
           = (if nonce_answered seg then 1 else 0)%nat ∧
           length (built_calls seg)
           = (if reached_build seg then 1 else 0)%nat)
      window_events segs.
Proof.
  split; [in_trace |]. split; [in_trace |].
  destruct (amount_preserved mock_checksum mock_int mock "source"
              "contract_info.json" mock0 Src Deposit 96 100 window_events)
    as (pre & segs & pk & addr & Ht & Hq & Hs & Hall); [in_trace |].
  rewrite (Hall eq_refl) in Hs.
  exists pre, segs, pk, addr.
  split; [exact Ht |]. split; [exact Hq | exact Hs].
Defined.


(** Over [mock0], [N] is 3 and [K] is 2. *)
Lemma outcomes_logged_not_returned_witness :
  In (CGetAllEntries Src Deposit 96 100 (inr window_events))
     (trace (pass mock0)) ∧
  forallb (readable mock_int) window_events = true ∧
  forallb hash_shown window_events = true ∧
  accepted_count (trace (pass mock0)) = 2%nat ∧
  (∃ (pre : list Call) (segs : list (list Call)) (warden_pk : json)
     (warden_addr : string),
     trace (pass mock0)
     = (pre ++ CGetAllEntries Src Deposit 96 100 (inr window_events) ::
        fetch_notes Src (inr window_events) ++ concat segs)%list ∧
     Forall (fun c => relay_call c = false) pre ∧
     Forall2 (Relayed mock_int Src warden_pk warden_addr)
             window_events segs) ∧
  sent_count Src (trace (pass mock0)) = accepted_count (trace (pass mock0)) ∧
  failed_count (trace (pass mock0))
  = (length window_events - accepted_count (trace (pass mock0)))%nat ∧
  (accepted_count (trace (pass mock0)) <= length window_events)%nat ∧
  value (pass mock0) = inr 1.
Proof.
  split; [in_trace |]. split; [reflexivity |]. split; [reflexivity |].
  split; [reflexivity |].
  apply (outcomes_logged_not_returned mock_checksum mock_int mock "source"
           "contract_info.json" mock0 Src Deposit 96 100 window_events);
    [in_trace | reflexivity | reflexivity].
Defined.

(** C5, as stated, fails: over the same three events, a pass whose
    submissions are all accepted and a pass whose submissions are all
    rejected return the same value, so no reading of the returned value
    gives the pair of counts in both. *)
Lemma counts_not_returned :
  ¬ ∃ counts_of : result Z -> nat * nat,
      ∀ m, In m [with_submissions [true; true; true] mock0;
                 with_submissions [false; false; false] mock0] ->
           counts_of (value (pass m))
           = (accepted_count (trace (pass m)),
              (length (events_fetched (trace (pass m)))
               - accepted_count (trace (pass m)))%nat).
Proof.
  intros [counts_of H].
  pose proof (H _ (or_introl eq_refl)) as HA.
  pose proof (H _ (or_intror (or_introl eq_refl))) as HB.
  vm_compute in HA, HB. rewrite HA in HB. discriminate HB.
Qed.

(** Over [mock0] the warden is the one of the source entry, read from
    the file; the nonces built in are 40, 41 and again 41, the counts
    the destination chain answered at the start of each attempt. *)
Lemma nonce_read_per_event_witness :
  In (CGetAllEntries Src Deposit 96 100 (inr window_events))
     (trace (pass mock0)) ∧
  nonce_answers (trace (pass mock0)) = [inr 40; inr 41; inr 41] ∧
  map tx_nonce (built_params (trace (pass mock0))) = [40; 41; 41] ∧
  ∃ (c1 c2 src_meta dst_meta : json) (setup : list Call)
    (segs : list (list Call)) (warden_pk : json) (warden_addr : string),
    getitem c1 "source" = inr src_meta ∧
    getitem c2 "destination" = inr dst_meta ∧
    resolve_warden mock_checksum src_meta dst_meta
      = inr (Some (warden_pk, warden_addr)) ∧
    trace (pass mock0)
    = (CLoadJson "contract_info.json" (inr c1) ::
       CLoadJson "contract_info.json" (inr c2) ::
       setup ++
       CGetAllEntries Src Deposit 96 100 (inr window_events) ::
       fetch_notes Src (inr window_events) ++ concat segs)%list ∧
    Forall (fun c => relay_call c = false) setup ∧
    Forall2
      (fun evt seg =>
         Relayed mock_int Src warden_pk warden_addr evt seg ∧
         ∃ (answer : result Z) (rest : list Call),
           seg = CGetTransactionCount Dst warden_addr answer :: rest ∧
           nonce_reads rest = [] ∧
           map (fun p => (tx_from p, inr (tx_nonce p))) (built_params rest)
           = (if reached_build rest then [(warden_addr, answer)] else []))
      window_events segs ∧
    nonce_reads (trace (pass mock0))
    = map (fun _ => (Dst, warden_addr)) window_events ∧
    nonces_fresh None (trace (pass mock0)) = true.
Proof.
  split; [in_trace |]. split; [reflexivity |]. split; [reflexivity |].
  destruct (nonce_read_per_event mock_checksum mock_int mock "source"
              "contract_info.json" mock0 Src Deposit 96 100 window_events)
    as (c1 & c2 & src_meta & dst_meta & setup & segs & pk & addr &
        H1 & H2 & Hw & Ht & Hq & Hs & Hn & Hf & Hall); [in_trace |].
  rewrite (Hall eq_refl) in Hs, Hn.
  exists c1, c2, src_meta, dst_meta, setup, segs, pk, addr.
  do 5 (split; [assumption |]). split; [exact Hs |].
  split; [exact Hn | exact Hf].
Defined.

(** C8, as stated, fails: with a configuration in which neither entry
    carries a warden key, the pass returns 0 only after it has opened
    both sessions, tested both connections and read both heights. *)
Lemma missing_credential_found_late :
  resolve_warden mock_checksum (JObj (entry src_address))
    (JObj (entry dst_address)) = inr None ∧
  value (pass (with_config (inr config_no_warden) mock0)) = inr 0 ∧
  filter (fun c => rpc_call c = true)
    (trace (pass (with_config (inr config_no_warden) mock0)))
  = [CIsConnected Src (inr true); CIsConnected Dst (inr true);
     CBlockNumber Src (inr 100); CBlockNumber Dst (inr 2)] ∧
  printed (trace (pass (with_config (inr config_no_warden) mock0)))
  = ["warden key/address not found in contract_info.json"].
Proof. vm_compute. repeat split. Qed.

(** C9.  With a readable, well-formed configuration that has no entry
    for the requested role, [get_contract_info] raises [KeyError]
    instead of printing the message and returning 0 as it does for an
    unreadable or malformed file, and the exception leaves
    [scan_blocks] uncaught, before any web3 call. *)
Theorem missing_role_key_raises :
  let m := with_config (inr config_no_destination) mock0 in
  let unreadable :=
    with_config (inl (Raised "FileNotFoundError" "No such file")) mock0 in
  value (interp mock (get_contract_info "destination" "contract_info.json") m)
  = inl (KeyError "destination") ∧
  printed (trace (interp mock (get_contract_info "destination"
                                 "contract_info.json") m)) = [] ∧
  value (pass m) = inl (KeyError "destination") ∧
  Forall (fun c => web3_call c = false) (trace (pass m)) ∧
  value (interp mock (get_contract_info "destination" "contract_info.json")
           unreadable) = inr (JInt 0).
Proof. vm_compute. repeat split; repeat constructor. Qed.

(** Over [mock0] with a credential in both entries, the setup succeeds
    and the pass over the source chain goes on to the query and the
    attempts, with the key and the address of the source entry. *)
Lemma source_credential_first_witness :
  let src := warden_entry src_address "0xkeyA" warden_a in
  let dst := warden_entry dst_address "0xkeyB" warden_b in
  let o := interp mock (scan_with_info mock_checksum mock_int "source"
                          (JObj src) (JObj dst)) mock0 in
  (∀ dst_meta : json,
     resolve_warden mock_checksum (JObj src) dst_meta
     = inr (Some (JStr "0xkeyA", warden_a))) ∧
  In (CEthContract Dst (JStr dst_address) (JArr []) (inr tt)) (trace o) ∧
  value o = inr 1 ∧
  (∃ (ls ld : Z) (a1 b1 : json) (r : result (list Event))
     (segs : list (list Call)),
     trace o = (setup_calls ls ld a1 b1 (JStr dst_address) (JArr []) ++
                CGetAllEntries Src Deposit
                  (Z.max (latest_of Src ls ld - 4) 0)
                  (latest_of Src ls ld) r ::
                fetch_notes Src r ++ concat segs)%list ∧
     Forall2 (Relayed mock_int Src (JStr "0xkeyA") warden_a)
             (readable_prefix mock_int (fetched r)) segs ∧
     value o = pass_value mock_int (fetched r) ∧
     nonce_reads (trace o)
     = map (fun _ => (Dst, warden_a))
           (readable_prefix mock_int (fetched r)) ∧
     signing_keys (trace o)
     = map (fun _ => JStr "0xkeyA") (built_txs (trace o))) ∧
  resolve_warden mock_checksum
    (JObj (delete "warden_private_key" src)) (JObj dst)
    = inr (Some (JStr "0xkeyB", warden_b)).
Proof.
  intros src dst o.
  destruct (source_credential_first mock_checksum mock_int src dst
              (JStr "0xkeyA") (JStr warden_a) (JStr "0xkeyB") (JStr warden_b)
              warden_a warden_b) as (H1 & H2 & H3); try reflexivity.
  split; [exact H1 |]. split; [subst o; in_trace |].
  split; [reflexivity |]. split; [| exact H3].
  apply (H2 mock Src mock0 (JStr dst_address) (JArr [])). in_trace.
Defined.

(** * Further properties of the code *)

(** ** [connect_to] *)

(** X1.  For a chain name other than "source" and "destination",
    [connect_to] makes no call at all and raises [UnboundLocalError]:
    [w3] was never bound when it is returned. *)
Theorem connect_to_unknown_chain (E : Env) (chain : string) (w : world E) :
  chain ≠ "source" -> chain ≠ "destination" ->
  interp E (connect_to chain) w
  = {| value := inl (UnboundLocalError "w3"); trace := []; final := w |}.
Proof.
  intros Hs Hd. unfold connect_to.
  rewrite (bool_decide_false (chain ∈ _)); [reflexivity |].
  intros [-> | H]%elem_of_cons; [done |].
  apply elem_of_cons in H as [-> | H]; [done |].
  by apply elem_of_nil in H.
Qed.

Lemma connect_to_unknown_chain_witness :
  "north" ≠ "source" ∧ "north" ≠ "destination" ∧
  interp mock (connect_to "north") mock0
  = {| value := inl (UnboundLocalError "w3"); trace := []; final := mock0 |}.
Proof.
  split; [discriminate |]. split; [discriminate |].
  apply (connect_to_unknown_chain mock "north" mock0); discriminate.
Defined.

(** X2.  For each of the two chains, [connect_to] opens exactly one
    session, at the endpoint of that chain (the AVAX test network for
    the source, the BSC test network for the destination), and returns
    the handle of that chain unless the constructor raised. *)
Theorem connect_to_endpoint (E : Env) (s : side) (w : world E) :
  let o := interp E (connect_to (side_name s)) w in
  ∃ r : result unit,
    trace o = [CNewWeb3 s (match s with
                           | Src => "https://api.avax-test.network/ext/bc/C/rpc"
                           | Dst => "https://data-seed-prebsc-1-s1.binance.org:8545/"
                           end) r] ∧
    value o = match r with inl e => inl e | inr _ => inr s end.
Proof.
  intros o. subst o. destruct s; cbn [side_name].
  - rewrite connect_to_source. unfold bind, call, ret. simpl.
    answer; eexists; split; reflexivity.
  - rewrite connect_to_destination. unfold bind, call, ret. simpl.
    answer; eexists; split; reflexivity.
Qed.

(** ** [get_contract_info] *)

Lemma get_contract_info_trace (E : Env) (chain contract_info : string)
    (w : world E) :
  let o := interp E (get_contract_info chain contract_info) w in
  (∃ e, trace o = [CLoadJson contract_info (inl e);
                   CPrint ("Failed to read contract info" ++ nl ++
                           "Please contact your instructor" ++ nl ++
                           exn_str e)] ∧
        value o = inr (JInt 0)) ∨
  (∃ contracts, trace o = [CLoadJson contract_info (inr contracts)] ∧
                value o = getitem contracts chain).
Proof.
  unfold get_contract_info, try_except, bind, call, print, ret, lift. simpl.
  destruct (respond E _ (LoadJson contract_info) w) as [[e | c] w1]; simpl.
  - answer. left. by eexists.
  - right. by eexists.
Qed.

(** X3.  Whatever exception the read of the file raises (the file cannot
    be opened, its content is not JSON), [get_contract_info] catches it:
    it prints the three-line message ending in the text of the exception
    and returns 0. *)
Theorem get_contract_info_read_failure (E : Env)
    (chain contract_info path : string) (w : world E) (e : exn) :
  let o := interp E (get_contract_info chain contract_info) w in
  In (CLoadJson path (inl e)) (trace o) ->
  value o = inr (JInt 0) ∧
  trace o = [CLoadJson contract_info (inl e);
             CPrint ("Failed to read contract info" ++ nl ++
                     "Please contact your instructor" ++ nl ++ exn_str e)].
Proof.
  intros o Hin. subst o.
  destruct (get_contract_info_trace E chain contract_info w)
    as [(e' & Ht & Hv) | (c & Ht & Hv)]; rewrite Ht in *.
  - destruct Hin as [Hin | [Hin | []]]; [| discriminate Hin].
    injection Hin as _ <-. by split.
  - destruct Hin as [Hin | []]. discriminate Hin.
Qed.

(** X4.  Reading back what the file holds: when the configuration is a
    dict in which [chain] is bound to [entry], [get_contract_info]
    returns [entry], whatever else the dict holds, after one read and
    with nothing printed. *)
Theorem get_contract_info_lookup (E : Env) (chain contract_info path : string)
    (w : world E) (m : gmap string json) (v : json) :
  let o := interp E (get_contract_info chain contract_info) w in
  In (CLoadJson path (inr (JObj (<[chain := v]> m)))) (trace o) ->
  value o = inr v ∧
  trace o = [CLoadJson contract_info (inr (JObj (<[chain := v]> m)))].
Proof.
  intros o Hin. subst o.
  destruct (get_contract_info_trace E chain contract_info w)
    as [(e' & Ht & Hv) | (c & Ht & Hv)]; rewrite Ht in *.
  - destruct Hin as [Hin | [Hin | []]]; discriminate Hin.
  - destruct Hin as [Hin | []]. injection Hin as _ ->.
    split; [| reflexivity]. rewrite Hv. unfold getitem.
    by rewrite lookup_insert_eq.
Qed.

(** X5.  When the configuration is a dict without the key [chain],
    [get_contract_info] raises [KeyError] for that key: the lookup is
    outside the [try], so nothing is printed and no 0 is returned. *)
Theorem get_contract_info_missing_key (E : Env)
    (chain contract_info path : string) (w : world E)
    (m : gmap string json) :
  let o := interp E (get_contract_info chain contract_info) w in
  In (CLoadJson path (inr (JObj m))) (trace o) ->
  m !! chain = None ->
  value o = inl (KeyError chain) ∧ printed (trace o) = [].
Proof.
  intros o Hin Hm. subst o.
  destruct (get_contract_info_trace E chain contract_info w)
    as [(e' & Ht & Hv) | (c & Ht & Hv)]; rewrite Ht in *.
  - destruct Hin as [Hin | [Hin | []]]; discriminate Hin.
  - destruct Hin as [Hin | []]. injection Hin as _ ->.
    split; [| reflexivity]. rewrite Hv. unfold getitem. by rewrite Hm.
Qed.

(** X6.  When the file holds valid JSON that is not an object (a list,
    a string, a number, a boolean or null), [get_contract_info] raises
    [TypeError], uncaught. *)
Theorem get_contract_info_not_a_dict (E : Env)
    (chain contract_info path : string) (w : world E) (j : json) :
  let o := interp E (get_contract_info chain contract_info) w in
  In (CLoadJson path (inr j)) (trace o) ->
  (∀ m, j ≠ JObj m) ->
  ∃ msg, value o = inl (TypeError msg) ∧ printed (trace o) = [].
Proof.
  intros o Hin Hj. subst o.
  destruct (get_contract_info_trace E chain contract_info w)
    as [(e' & Ht & Hv) | (c & Ht & Hv)]; rewrite Ht in *.
  - destruct Hin as [Hin | [Hin | []]]; discriminate Hin.
  - destruct Hin as [Hin | []]. injection Hin as _ ->.
    rewrite Hv. destruct j; try (eexists; split; reflexivity).
    by destruct (Hj m).
Qed.

(** ** [scan_blocks]: the relay *)

Section Relayed.

Variable to_checksum_address : json -> result string.
Variable int_of_text : string -> result Z.

Local Abbreviation scan := (scan_blocks to_checksum_address int_of_text).

(** X7.  A pass returns 1 exactly when its event query answered with at
    least one entry and the fields of every entry of the answer could be
    read by lines 112-115 or 152-155; in every other case it returns 0
    or raises. *)
Theorem returns_one_iff_events (E : Env) (chain contract_info : string)
    (w : world E) :
  let o := interp E (scan chain contract_info) w in
  (value o = inr 1 ↔
   ∃ s k from_block to_block evt rest,
     In (CGetAllEntries s k from_block to_block (inr (evt :: rest)))
        (trace o) ∧
     forallb (readable int_of_text) (evt :: rest) = true) ∧
  (value o = inr 0 ∨ value o = inr 1 ∨ ∃ e, value o = inl e).
Proof.
  intros o. subst o.
  split; [| apply scan_blocks_code]. split.
  - intros Hv.
    destruct (pass_shape to_checksum_address int_of_text E chain
                contract_info w)
      as [[_ Hne] | (scanned & -> & HR)]; [done |].
    destruct HR as [c1 c2 src_meta dst_meta ls ld a1 b1 a2 b2 pk addr r segs
                      _ _ _ _ _ Ht _ Hv'].
    rewrite Hv' in Hv. rewrite Ht.
    apply pass_value_one in Hv as [Hne Hall].
    destruct r as [e | [| evt rest]]; try done.
    exists scanned, (scanned_event scanned). do 2 eexists. exists evt, rest.
    split; [| exact Hall].
    rewrite pass_trace_split. apply in_or_app. left.
    do 2 right. apply in_or_app. right. by left.
  - intros (s & k & f & l & evt & rest & Hin & Hall).
    destruct (query_inv to_checksum_address int_of_text E chain
                contract_info w s k f l _ Hin)
      as (c1 & c2 & src_meta & dst_meta & ls & ld & a1 & b1 & a2 & b2 & pk &
          addr & segs & _ & _ & _ & _ & _ & _ & _ & _ & _ & Hv).
    rewrite Hv. by apply pass_value_one.
Qed.

(** X8.  When the event query raises, the exception is caught: the pass
    prints that the events could not be fetched, then that none were
    found, returns 0, and makes no call for any event. *)
Theorem query_failure_is_soft (E : Env) (chain contract_info : string)
    (w : world E) (s : side) (k : event_kind) (from_block to_block : Z)
    (e : exn) :
  let o := interp E (scan chain contract_info) w in
  In (CGetAllEntries s k from_block to_block (inl e)) (trace o) ->
  value o = inr 0 ∧
  printed (trace o)
  = ["Failed to fetch " ++ event_name k ++ " events on " ++ side_name s ++
     ": " ++ exn_str e;
     "No " ++ event_name k ++ " events found on " ++ side_name s ++
     " in the last 5 blocks"] ∧
  relay_sides (trace o) = [].
Proof.
  intros o Hin. subst o.
  destruct (query_inv to_checksum_address int_of_text E chain contract_info w
              s k from_block to_block _ Hin)
    as (c1 & c2 & src_meta & dst_meta & ls & ld & a1 & b1 & a2 & b2 & pk &
        addr & segs & -> & -> & _ & _ & _ & _ & _ & Ht & Hs & Hv).
  rewrite Ht, Hv. apply Forall2_nil_inv_l in Hs as ->.
  by destruct s.
Qed.

(** X9.  When the event query answers with no event, the pass prints
    that none were found and returns 0; no nonce is read and nothing is
    built, signed or submitted. *)
Theorem empty_batch_no_submission (E : Env) (chain contract_info : string)
    (w : world E) (s : side) (k : event_kind) (from_block to_block : Z) :
  let o := interp E (scan chain contract_info) w in
  In (CGetAllEntries s k from_block to_block (inr [])) (trace o) ->
  value o = inr 0 ∧
  printed (trace o)
  = ["No " ++ event_name k ++ " events found on " ++ side_name s ++
     " in the last 5 blocks"] ∧
  relay_sides (trace o) = [].
Proof.
  intros o Hin. subst o.
  destruct (query_inv to_checksum_address int_of_text E chain contract_info w
              s k from_block to_block _ Hin)
    as (c1 & c2 & src_meta & dst_meta & ls & ld & a1 & b1 & a2 & b2 & pk &
        addr & segs & -> & -> & _ & _ & _ & _ & _ & Ht & Hs & Hv).
  rewrite Ht, Hv. apply Forall2_nil_inv_l in Hs as ->.
  by destruct s.
Qed.

(** X11.  A pass never writes to the chain it scans: every nonce read,
    every chain-id read and every transaction built, signed or
    submitted goes to a chain other than the one named by [chain]. *)
Theorem scanned_chain_not_written (E : Env) (chain contract_info : string)
    (w : world E) :
  let o := interp E (scan chain contract_info) w in
  Forall (fun s => side_name s ≠ chain) (relay_sides (trace o)).
Proof.
  intros o. subst o.
  destruct (pass_relay_cases to_checksum_address int_of_text E chain
              contract_info w)
    as [Hq | (s & c1 & c2 & ls & ld & a1 & b1 & a2 & b2 & r & pk & addr &
              segs & -> & Ht & Hs)]; cbv zeta in *.
  - unfold relay_sides. rewrite quiet_omap; [constructor | | exact Hq].
    by intros [].
  - rewrite Ht. unfold relay_sides.
    rewrite pass_omap; [| by intros [] | done].
    eapply attempts_omap_Forall; [| exact Hs].
    intros evt seg (tk & rc & am & _ & Ha).
    destruct Ha, s; repeat constructor; discriminate.
Qed.

(** X12.  Every transaction is built with the same parameters: a gas
    limit of 250000, a maximal fee of 2 gwei and a priority fee of
    1 gwei, and one sender, the address for which the pass reads its
    nonces. *)
Theorem transaction_parameters_fixed (E : Env) (chain contract_info : string)
    (w : world E) :
  let o := interp E (scan chain contract_info) w in
  ∃ sender : string,
    Forall (fun p => tx_gas p = 250000 ∧
                     tx_maxFeePerGas p = 2 * 10 ^ 9 ∧
                     tx_maxPriorityFeePerGas p = 1 * 10 ^ 9 ∧
                     tx_from p = sender)
           (built_params (trace o)) ∧
    Forall (fun sa => snd sa = sender) (nonce_reads (trace o)).
Proof.
  intros o. subst o.
  destruct (pass_relay_cases to_checksum_address int_of_text E chain
              contract_info w)
    as [Hq | (s & c1 & c2 & ls & ld & a1 & b1 & a2 & b2 & r & pk & addr &
              segs & -> & Ht & Hs)]; cbv zeta in *.
  - exists "". unfold built_params, nonce_reads.
    rewrite !quiet_omap; [split; constructor | | exact Hq | | exact Hq];
      by intros [].
  - exists addr. rewrite Ht. unfold built_params.
    rewrite pass_omap; [| by intros [] | done]. split.
    + eapply attempts_omap_Forall; [| exact Hs].
      intros evt seg (tk & rc & am & _ & Ha). destruct Ha; repeat constructor.
    + rewrite (pass_nonce_reads _ Hs).
      apply List.Forall_forall. by intros ? [? [<- _]]%in_map_iff.
Qed.

(** No more submissions than attempts. *)
Lemma attempts_submitted (s : side) (pk : json) (addr : string)
    (evts : list Event) (segs : list (list Call)) :
  Forall2 (Relayed int_of_text s pk addr) evts segs ->
  (length (omap (fun c => match c with
                          | CSendRawTransaction _ raw _ => Some raw
                          | _ => None
                          end) (concat segs)) <= length evts)%nat.
Proof.
  induction 1 as [| evt seg evts segs (tk & rc & am & _ & Ha) _ IH]; [done |].
  simpl. rewrite omap_app, length_app. destruct Ha; simpl; lia.
Qed.

(** X13.  What is signed is what was built, and what is submitted is
    what was signed: the transactions handed to [sign_transaction] are
    exactly those [build_transaction] returned, and the raw transactions
    handed to [send_raw_transaction] are exactly those
    [sign_transaction] returned, each once and in the same order.  So
    there are no more submissions than events fetched: nothing is
    submitted twice. *)
Theorem signed_what_was_built (E : Env) (chain contract_info : string)
    (w : world E) :
  let o := interp E (scan chain contract_info) w in
  signed_txs (trace o) = built_txs (trace o) ∧
  raw_submitted (trace o) = raw_signed (trace o) ∧
  (length (raw_submitted (trace o)) <= length (events_fetched (trace o)))%nat.
Proof.
  intros o. subst o.
  destruct (pass_relay_cases to_checksum_address int_of_text E chain
              contract_info w)
    as [Hq | (s & c1 & c2 & ls & ld & a1 & b1 & a2 & b2 & r & pk & addr &
              segs & -> & Ht & Hs)]; cbv zeta in *.
  - unfold signed_txs, built_txs, raw_submitted, raw_signed.
    rewrite !quiet_omap; try exact Hq; try (by intros []);
      try (by intros [| | | | | | | | | | ? ? ? [] | ? ? ? [] |]).
    repeat split. simpl. lia.
  - rewrite Ht. unfold signed_txs, built_txs, raw_submitted, raw_signed.
    rewrite !pass_omap; try done; try (by intros []);
      try (by intros [| | | | | | | | | | ? ? ? [] | ? ? ? [] |]).
    split; [| split].
    + eapply attempts_omap_eq; [| exact Hs].
      by intros evt seg (tk & rc & am & _ & []).
    + eapply attempts_omap_eq; [| exact Hs].
      by intros evt seg (tk & rc & am & _ & []).
    + unfold events_fetched. rewrite (pass_event_queries _ Hs). simpl.
      rewrite app_nil_r.
      eapply Nat.le_trans; [| apply (readable_prefix_length int_of_text)].
      apply (attempts_submitted _ _ _ _ _ Hs).
Qed.

(** X14.  The chain id of every transaction is the answer of the
    [chain_id] read made just before it is built, on the chain it is
    built for: the id is read anew for each event. *)
Theorem chain_id_read_per_event (E : Env) (chain contract_info : string)
    (w : world E) :
  let o := interp E (scan chain contract_info) w in
  chain_ids_fresh None (trace o) = true.
Proof.
  intros o. subst o.
  destruct (pass_relay_cases to_checksum_address int_of_text E chain
              contract_info w)
    as [Hq | (s & c1 & c2 & ls & ld & a1 & b1 & a2 & b2 & r & pk & addr &
              segs & -> & Ht & Hs)]; cbv zeta in *.
  - induction Hq as [| c t Hc _ IH]; [done |].
    destruct c; try discriminate Hc; exact IH.
  - rewrite Ht. unfold pass_trace, setup_calls. cbn [app chain_ids_fresh].
    destruct r as [? | [| ? ?]]; cbn [fetch_notes app chain_ids_fresh];
      apply (attempts_chain_ids _ _ _ Hs).
Qed.

End Relayed.

(** ** [scan_blocks]: the setup *)

Section Setup.

Variable to_checksum_address : json -> result string.
Variable int_of_text : string -> result Z.

Local Abbreviation scan := (scan_blocks to_checksum_address int_of_text).

Lemma attempts_connections {s : side} {pk : json} {addr : string}
    (evts : list Event) (segs : list (list Call)) :
  Forall2 (Relayed int_of_text s pk addr) evts segs ->
  connections (concat segs) = [] ∧ sessions (concat segs) = [].
Proof.
  induction 1 as [| evt seg evts segs (tk & rc & am & _ & Ha) _ [IH1 IH2]];
    [done |].
  simpl. unfold connections, sessions in *. rewrite !omap_app, IH1, IH2.
  by destruct Ha.
Qed.

Lemma pass_connections (contract_info : string) (s : side) (c1 c2 : json)
    (ls ld : Z) (a1 b1 a2 b2 pk : json) (addr : string)
    (r : result (list Event)) (segs : list (list Call)) :
  Forall2 (Relayed int_of_text s pk addr)
          (readable_prefix int_of_text (fetched r)) segs ->
  connections (pass_trace contract_info s c1 c2 ls ld a1 b1 a2 b2 r segs)
  = [(Src, inr true); (Dst, inr true)] ∧
  sessions (pass_trace contract_info s c1 c2 ls ld a1 b1 a2 b2 r segs)
  = [(Src, avax_rpc); (Dst, bsc_rpc)].
Proof.
  intros [Hc Hs]%attempts_connections.
  rewrite pass_trace_split. unfold connections, sessions in *.
  rewrite !omap_app, Hc, Hs. by destruct r as [? | [| ? ?]].
Qed.

(** X10.  When a connection test answers that an endpoint is not
    connected, the pass prints that it failed to connect and returns 0
    without reading any height; when it is the source chain that is
    down, the destination chain is not even tested. *)
Theorem disconnected_pass_stops (E : Env) (chain contract_info : string)
    (w : world E) (s : side) :
  let o := interp E (scan chain contract_info) w in
  In (CIsConnected s (inr false)) (trace o) ->
  value o = inr 0 ∧
  printed (trace o) = ["Failed to connect to one of the RPC endpoints"] ∧
  heights (trace o) = [] ∧
  event_queries (trace o) = [] ∧
  connections (trace o)
  = match s with
    | Src => [(Src, inr false)]
    | Dst => [(Src, inr true); (Dst, inr false)]
    end.
Proof.
  intros o Hin. subst o.
  destruct (pass_cases to_checksum_address int_of_text E chain
              contract_info w)
    as [[Hq _] | [(c1 & c2 & src_meta & dst_meta & t1 & _ & _ & _ & _ & Ht &
                   HS) |
                  (s0 & c1 & c2 & src_meta & dst_meta & ls & ld & a1 & b1 &
                   a2 & b2 & r & pk & addr & segs & -> & _ & _ & _ & _ & _ &
                   Ht & Hs & _)]]; cbv zeta in *.
  - apply (proj1 (List.Forall_forall _ _) Hq) in Hin. discriminate Hin.
  - rewrite Ht in *. destruct Hin as [Hin | [Hin | Hin]];
      [discriminate Hin | discriminate Hin |].
    destruct HS; unfold setup_calls in Hin; simpl in Hin;
      repeat match goal with
             | H : _ ∨ _ |- _ => destruct H as [H | H]
             | H : False |- _ => destruct H
             end;
      try discriminate Hin;
      try (injection Hin as <-; by repeat split).
  - exfalso. rewrite Ht in Hin.
    apply In_connections in Hin.
    rewrite (proj1 (pass_connections _ _ _ _ _ _ _ _ _ _ _ _ _ _ Hs)) in Hin.
    destruct Hin as [Hin | [Hin | []]]; discriminate Hin.
Qed.

(** X15.  A pass that queries events has set up both chains, whichever
    its direction: it opened the AVAX session for the source and the BSC
    session for the destination, found both connected and read the
    height of both, though only the height of the scanned chain is
    used. *)
Theorem both_chains_set_up (E : Env) (chain contract_info : string)
    (w : world E) (s : side) (k : event_kind) (from_block to_block : Z)
    (r : result (list Event)) :
  let o := interp E (scan chain contract_info) w in
  In (CGetAllEntries s k from_block to_block r) (trace o) ->
  sessions (trace o)
  = [(Src, "https://api.avax-test.network/ext/bc/C/rpc");
     (Dst, "https://data-seed-prebsc-1-s1.binance.org:8545/")] ∧
  connections (trace o) = [(Src, inr true); (Dst, inr true)] ∧
  ∃ latest_src latest_dst,
    heights (trace o) = [(Src, inr latest_src); (Dst, inr latest_dst)].
Proof.
  intros o Hin. subst o.
  destruct (query_inv to_checksum_address int_of_text E chain contract_info w
              s k from_block to_block _ Hin)
    as (c1 & c2 & src_meta & dst_meta & ls & ld & a1 & b1 & a2 & b2 & pk &
        addr & segs & -> & -> & _ & _ & _ & _ & _ & Ht & Hs & Hv).
  rewrite Ht.
  destruct (pass_connections contract_info s c1 c2 ls ld a1 b1 a2 b2 pk addr
              r segs Hs) as [-> ->].
  repeat split. exists ls, ld. apply (pass_heights _ Hs).
Qed.

End Setup.

(** ** [scan_blocks]: the entries of the configuration *)

Section Entries.

Variable to_checksum_address : json -> result string.
Variable int_of_text : string -> result Z.

Local Abbreviation scan := (scan_blocks to_checksum_address int_of_text).

(** X16.  When the source entry is a dict without the key "address",
    a pass that got as far as reading the height of the destination
    chain raises [KeyError] for that key: it has opened both sessions,
    tested both connections and read both heights, and does nothing
    more. *)
Theorem missing_address_raises (E : Env) (scanned : side)
    (src : gmap string json) (dst_meta : json) (w : world E) (h : Z) :
  src !! "address" = None ->
  let o := interp E (scan_with_info to_checksum_address int_of_text
                       (side_name scanned)
                       (JObj src) dst_meta) w in
  In (CBlockNumber Dst (inr h)) (trace o) ->
  value o = inl (KeyError "address") ∧
  ∃ latest_src,
    trace o = [CNewWeb3 Src avax_rpc (inr tt); CNewWeb3 Dst bsc_rpc (inr tt);
               CIsConnected Src (inr true); CIsConnected Dst (inr true);
               CBlockNumber Src (inr latest_src); CBlockNumber Dst (inr h)].
Proof.
  intros Hm o Hin. subst o.
  assert (Hg : getitem (JObj src) "address" = inl (KeyError "address")).
  { unfold getitem. by rewrite Hm. }
  destruct (scan_with_info_cases to_checksum_address int_of_text E scanned
              (JObj src) dst_meta w)
    as [HS | (ls & ld & a1 & b1 & a2 & b2 & pk & addr & w2 &
              Ha1 & _)]; [| by rewrite Hg in Ha1].
  destruct HS;
    try match goal with
        | H : getitem (JObj src) "address" = inr _ |- _ =>
            by rewrite Hg in H
        end;
    simpl in Hin;
    repeat match goal with
           | H : _ ∨ _ |- _ => destruct H as [H | H]
           | H : False |- _ => destruct H
           end;
    try discriminate Hin.
  injection Hin as <-.
  match goal with
  | H : getitem (JObj src) "address" = inl _ |- _ =>
      rewrite Hg in H; injection H as <-
  end.
  split; [reflexivity | by eexists].
Qed.

(** X17.  A source entry that has a warden key but no warden address is
    not made up for by the destination entry: resolving the warden
    raises [KeyError] for "warden_address" whatever the destination
    entry holds, so no pass over such a configuration makes a call of
    the relay part or returns 1. *)
Theorem warden_address_required (src : gmap string json) (dst_meta : json) :
  is_Some (src !! "warden_private_key") ->
  src !! "warden_address" = None ->
  resolve_warden to_checksum_address (JObj src) dst_meta
    = inl (KeyError "warden_address") ∧
  ∀ (E : Env) (scanned : side) (w : world E),
    let o := interp E (scan_with_info to_checksum_address int_of_text
                       (side_name scanned)
                         (JObj src) dst_meta) w in
    Forall (fun c => relay_call c = false) (trace o) ∧ value o ≠ inr 1.
Proof.
  intros [pk Hpk] Ha.
  assert (Hw : resolve_warden to_checksum_address (JObj src) dst_meta
               = inl (KeyError "warden_address")).
  { unfold resolve_warden, contains, getitem.
    rewrite Hpk, Ha. by rewrite bool_decide_true by eauto. }
  split; [exact Hw |].
  intros E scanned w o. subst o.
  destruct (scan_with_info_cases to_checksum_address int_of_text E scanned
              (JObj src) dst_meta w)
    as [HS | (ls & ld & a1 & b1 & a2 & b2 & pk0 & addr & w2 &
              _ & _ & Hw0 & _)].
  - by apply stopped_quiet in HS.
  - rewrite Hw in Hw0. discriminate Hw0.
Qed.

(** X18.  For two entries that are dicts, no warden is found exactly
    when neither has the key "warden_private_key": the warden address
    alone does not count, and an entry with the key never leads to the
    "not found" result (it leads to a warden or to an exception). *)
Theorem no_warden_iff_no_key (src dst : gmap string json) :
  resolve_warden to_checksum_address (JObj src) (JObj dst) = inr None ↔
  src !! "warden_private_key" = None ∧ dst !! "warden_private_key" = None.
Proof.
  unfold resolve_warden, contains, getitem. split.
  - destruct (src !! "warden_private_key") as [pk |] eqn:Hs.
    + rewrite bool_decide_true by eauto.
      destruct (src !! "warden_address"); [| discriminate].
      destruct (to_checksum_address _); discriminate.
    + rewrite bool_decide_false by (by intros []).
      destruct (dst !! "warden_private_key") as [pk' |] eqn:Hd; [| done].
      rewrite bool_decide_true by eauto.
      destruct (dst !! "warden_address"); [| discriminate].
      destruct (to_checksum_address _); discriminate.
  - intros [-> ->]. by rewrite !bool_decide_false by (by intros []).
Qed.

Lemma attempts_config_reads {s : side} {pk : json} {addr : string}
    (evts : list Event) (segs : list (list Call)) :
  Forall2 (Relayed int_of_text s pk addr) evts segs ->
  config_reads (concat segs) = [].
Proof.
  induction 1 as [| evt seg evts segs (tk & rc & am & _ & Ha) _ IH]; [done |].
  simpl. unfold config_reads in *. rewrite omap_app, IH. by destruct Ha.
Qed.

(** Lines 58-173 do not read the configuration. *)
Lemma scan_with_info_no_reads (E : Env) (scanned : side)
    (src_meta dst_meta : json) (w : world E) :
  config_reads (trace (interp E (scan_with_info to_checksum_address int_of_text
                                   (side_name scanned) src_meta dst_meta) w))
  = [].
Proof.
  destruct (scan_with_info_cases to_checksum_address int_of_text E scanned
              src_meta dst_meta w)
    as [HS | (ls & ld & a1 & b1 & a2 & b2 & pk & addr & w2 &
              _ & _ & _ & Htr & _)].
  - by destruct HS.
  - cbv zeta in Htr. rewrite Htr.
    destruct (relay_direction_shape int_of_text E scanned
                (Z.max (latest_of scanned ls ld - 4) 0)
                (latest_of scanned ls ld) pk addr w2)
      as (r & segs & Hd & Hs & _).
    cbv zeta in Hd. rewrite Hd. unfold config_reads.
    rewrite omap_app. cbn [setup_calls omap list_omap app].
    rewrite omap_app.
    fold (config_reads (concat segs)).
    rewrite (attempts_config_reads _ _ Hs).
    by destruct r as [? | [| ? ?]].
Qed.

(** X19.  When a read of the configuration raises, the pass still makes
    its second read, so the file is read exactly twice; it makes no web3
    call, and it returns 0 unless the lookup of "destination" in the
    file that could be read raised. *)
Theorem unreadable_configuration (E : Env) (chain contract_info path : string)
    (w : world E) (e : exn) :
  let o := interp E (scan chain contract_info) w in
  In (CLoadJson path (inl e)) (trace o) ->
  length (config_reads (trace o)) = 2%nat ∧
  Forall (fun c => web3_call c = false) (trace o) ∧
  (value o = inr 0 ∨
   ∃ c2 e', In (CLoadJson contract_info (inr c2)) (trace o) ∧
            getitem c2 "destination" = inl e' ∧ value o = inl e').
Proof.
  intros o. subst o. unfold scan_blocks. case_bool_decide as Hin.
  { unfold print, bind, ret. simpl. answer.
    intros [H | []]. discriminate H. }
  rewrite interp_bind. cbv zeta.
  destruct (get_contract_info_trace E "source" contract_info w)
    as [(e1 & Ht & Hv) | (c1 & Ht & Hv)]; rewrite Hv, Ht.
  - cbn [value trace final]. rewrite interp_bind. cbv zeta.
    destruct (get_contract_info_trace E "destination" contract_info
                (final (interp E (get_contract_info "source" contract_info) w)))
      as [(e2 & Ht' & Hv') | (c2 & Ht' & Hv')]; rewrite Hv', Ht'.
    + intros _. cbn. split; [done |]. split; [repeat constructor | by left].
    + intros _. destruct (getitem c2 "destination") as [e' | dst] eqn:Hg; cbn.
      * split; [done |]. split; [repeat constructor |].
        right. exists c2, e'. rewrite Hg. auto 10.
      * split; [done |]. split; [repeat constructor | by left].
  - destruct (getitem c1 "source") as [e1 | src_meta] eqn:H1;
      cbn [value trace final].
    { intros [H | []]. discriminate H. }
    rewrite interp_bind. cbv zeta.
    match goal with
    | |- context [interp E (get_contract_info "destination" _) ?w0] =>
        destruct (get_contract_info_trace E "destination" contract_info w0)
          as [(e2 & Ht' & Hv') | (c2 & Ht' & Hv')]; rewrite Hv', Ht'
    end.
    + intros _. cbn [value trace final].
      unfold scan_with_info. cbn [truthy]. rewrite orb_true_r. cbn.
      split; [done |]. split; [repeat constructor | by left].
    + intros Hin'. exfalso.
      destruct (getitem c2 "destination") as [e' | dst_meta];
        cbn [value trace final app] in Hin'.
      * destruct Hin' as [H | [H | []]]; discriminate H.
      * destruct Hin' as [H | [H | H]]; [discriminate H | discriminate H |].
        destruct (valid_chain _ Hin) as [scanned ->].
        apply In_config_reads in H.
        by rewrite scan_with_info_no_reads in H.
Qed.

End Entries.

(** ** [scan_blocks]: entries that cannot be read or shown *)

Section Unreadable.

Variable to_checksum_address : json -> result string.
Variable int_of_text : string -> result Z.

Local Abbreviation scan := (scan_blocks to_checksum_address int_of_text).

Lemma readable_prefix_stops (before after : list Event) (evt : Event)
    (e : exn) :
  forallb (readable int_of_text) before = true ->
  read_fields int_of_text evt = inl e ->
  readable_prefix int_of_text (before ++ evt :: after) = before ∧
  first_unreadable int_of_text (before ++ evt :: after) = Some e.
Proof.
  intros Hb He. induction before as [| b before IH]; cbn.
  - unfold readable. by rewrite He.
  - cbn in Hb. apply andb_prop in Hb as [Hr Hb]. rewrite Hr.
    unfold readable in Hr.
    destruct (read_fields int_of_text b); [discriminate |].
    destruct (IH Hb) as [-> ->]. by split.
Qed.

(** X20.  The fields of an entry are read before the [try]: when the
    fields of an entry of the batch cannot be read, the entries before
    it get their attempts, in order, and the pass then ends with the
    exception of that read; no call is made and no line printed for that
    entry or for any entry after it. *)
Theorem unreadable_entry_ends_pass (E : Env) (chain contract_info : string)
    (w : world E) (s : side) (k : event_kind) (from_block to_block : Z)
    (before after : list Event) (evt : Event) (e : exn) :
  let o := interp E (scan chain contract_info) w in
  In (CGetAllEntries s k from_block to_block
        (inr (before ++ evt :: after)%list)) (trace o) ->
  forallb (readable int_of_text) before = true ->
  read_fields int_of_text evt = inl e ->
  value o = inl e ∧
  ∃ (pre : list Call) (segs : list (list Call)) (warden_pk : json)
    (warden_addr : string),
    trace o = (pre ++
               CGetAllEntries s k from_block to_block
                 (inr (before ++ evt :: after)%list) ::
               concat segs)%list ∧
    Forall (fun c => relay_call c = false) pre ∧
    Forall2 (Relayed int_of_text s warden_pk warden_addr) before segs.
Proof.
  intros o Hin Hb He. subst o.
  destruct (query_inv to_checksum_address int_of_text E chain contract_info
              w s k from_block to_block _ Hin)
    as (c1 & c2 & src_meta & dst_meta & ls & ld & a1 & b1 & a2 & b2 & pk &
        addr & segs & _ & -> & -> & -> & _ & _ & _ & Ht & Hs & Hv).
  cbn [fetched] in Hs, Hv.
  destruct (readable_prefix_stops before after evt e Hb He) as [Hp Hf].
  rewrite Hp in Hs. unfold pass_value in Hv. rewrite Hf in Hv.
  split; [exact Hv |].
  exists (CLoadJson contract_info (inr c1) ::
          CLoadJson contract_info (inr c2) ::
          setup_calls ls ld a1 b1 a2 b2), segs, pk, addr.
  split; [| split; [apply pass_trace_quiet | exact Hs]].
  rewrite Ht. unfold pass_trace. by destruct before.
Qed.

Lemma attempts_unshown (s : side) (pk : json) (addr : string)
    (evts : list Event) (segs : list (list Call)) :
  Forall2 (Relayed int_of_text s pk addr) evts segs ->
  forallb (fun evt => negb (hash_shown evt)) evts = true ->
  sent_count s (concat segs) = 0%nat ∧
  failed_count (concat segs) = length evts.
Proof.
  induction 1 as [| evt seg evts segs (tk & rc & am & _ & Ha) _ IH];
    [done |].
  cbn [forallb]. intros [Hh Hrest]%andb_prop.
  destruct (IH Hrest) as [IH1 IH2].
  simpl. rewrite sent_count_app, failed_count_app, IH1, IH2.
  unfold hash_shown in Hh.
  destruct (attempt_lines _ Ha)
    as [(shown & h & Ho & _) | [(e & Hp & _) | (e & _ & Hp & _)]].
  - rewrite Ho in Hh. discriminate Hh.
  - unfold sent_count, failed_count. rewrite Hp. simpl.
    destruct (failed_line_is_failed (scanned := s) e) as [-> ->]. by split.
  - unfold sent_count, failed_count. rewrite Hp. simpl.
    destruct (failed_line_is_failed (scanned := s) e) as [-> ->]. by split.
Qed.

(** X21.  The audit line is formatted inside the [try]: in a pass over
    entries whose fields can be read but whose transaction hash cannot
    be rendered, no audit line is printed and every entry gets a failure
    line, whether its submission was accepted or not. *)
Theorem unshown_hash_reported_failed (E : Env) (chain contract_info : string)
    (w : world E) (s : side) (k : event_kind) (from_block to_block : Z)
    (evts : list Event) :
  let o := interp E (scan chain contract_info) w in
  In (CGetAllEntries s k from_block to_block (inr evts)) (trace o) ->
  forallb (readable int_of_text) evts = true ->
  forallb (fun evt => negb (hash_shown evt)) evts = true ->
  sent_count s (trace o) = 0%nat ∧
  failed_count (trace o) = length evts ∧
  value o = inr (match evts with [] => 0 | _ :: _ => 1 end).
Proof.
  intros o Hin Hall Hh. subst o.
  destruct (query_inv to_checksum_address int_of_text E chain contract_info
              w s k from_block to_block _ Hin)
    as (c1 & c2 & src_meta & dst_meta & ls & ld & a1 & b1 & a2 & b2 & pk &
        addr & segs & _ & -> & -> & -> & _ & _ & _ & Ht & Hs & Hv).
  cbn [fetched] in Hs, Hv.
  rewrite readable_prefix_all in Hs by (by apply first_unreadable_none).
  rewrite pass_value_readable in Hv by exact Hall.
  rewrite Ht, Hv.
  destruct (pass_counts (contract_info := contract_info) (scanned := s)
              (c1 := c1) (c2 := c2) (latest_src := ls) (latest_dst := ld)
              (a1 := a1) (b1 := b1) (a2 := a2) (b2 := b2)
              (r := inr evts) (segs := segs)) as (-> & -> & _).
  destruct (attempts_unshown _ _ _ _ _ Hs Hh) as [-> ->]. by repeat split.
Qed.

End Unreadable.

(** ** Runs that meet the hypotheses above *)

Lemma get_contract_info_read_failure_witness :
  let m := with_config (inl (Raised "FileNotFoundError" "No such file"))
             mock0 in
  let o := interp mock (get_contract_info "source" "contract_info.json") m in
  In (CLoadJson "contract_info.json"
        (inl (Raised "FileNotFoundError" "No such file"))) (trace o) ∧
  value o = inr (JInt 0) ∧
  trace o = [CLoadJson "contract_info.json"
               (inl (Raised "FileNotFoundError" "No such file"));
             CPrint ("Failed to read contract info" ++ nl ++
                     "Please contact your instructor" ++ nl ++
                     "No such file")].
Proof.
  intros m o. split; [in_trace |].
  apply (get_contract_info_read_failure mock "source" "contract_info.json"
           "contract_info.json" m (Raised "FileNotFoundError" "No such file")).
  in_trace.
Defined.

Lemma get_contract_info_lookup_witness :
  let rest : gmap string json :=
    <["destination" := JObj (entry dst_address)]> ∅ in
  let v := JObj (warden_entry src_address "0xkeyA" warden_a) in
  let o := interp mock (get_contract_info "source" "contract_info.json")
             mock0 in
  In (CLoadJson "contract_info.json" (inr (JObj (<["source" := v]> rest))))
     (trace o) ∧
  value o = inr v ∧
  trace o = [CLoadJson "contract_info.json"
               (inr (JObj (<["source" := v]> rest)))].
Proof.
  intros rest v o. split; [in_trace |].
  apply (get_contract_info_lookup mock "source" "contract_info.json"
           "contract_info.json" mock0 rest v).
  in_trace.
Defined.

Lemma get_contract_info_missing_key_witness :
  let src : gmap string json :=
    <["source" := JObj (warden_entry src_address "0xkeyA" warden_a)]> ∅ in
  let o := interp mock (get_contract_info "destination" "contract_info.json")
             (with_config (inr config_no_destination) mock0) in
  In (CLoadJson "contract_info.json" (inr (JObj src))) (trace o) ∧
  src !! "destination" = None ∧
  value o = inl (KeyError "destination") ∧ printed (trace o) = [].
Proof.
  intros src o. split; [in_trace |]. split; [reflexivity |].
  apply (get_contract_info_missing_key mock "destination" "contract_info.json"
           "contract_info.json"
           (with_config (inr config_no_destination) mock0) src);
    [in_trace | reflexivity].
Defined.

Lemma get_contract_info_not_a_dict_witness :
  let o := interp mock (get_contract_info "source" "contract_info.json")
             (with_config (inr (JArr [])) mock0) in
  In (CLoadJson "contract_info.json" (inr (JArr []))) (trace o) ∧
  (∀ m, JArr [] ≠ JObj m) ∧
  ∃ msg, value o = inl (TypeError msg) ∧ printed (trace o) = [].
Proof.
  intros o. split; [in_trace |]. split; [discriminate |].
  apply (get_contract_info_not_a_dict mock "source" "contract_info.json"
           "contract_info.json" (with_config (inr (JArr [])) mock0) (JArr []));
    [in_trace | discriminate].
Defined.

Lemma query_failure_is_soft_witness :
  let e := Raised "Web3RPCError" "filter not found" in
  let o := interp query_fails
             (scan_blocks mock_checksum mock_int "source" "contract_info.json")
             mock0 in
  In (CGetAllEntries Src Deposit 96 100 (inl e)) (trace o) ∧
  value o = inr 0 ∧
  printed (trace o)
  = ["Failed to fetch Deposit events on source: filter not found";
     "No Deposit events found on source in the last 5 blocks"] ∧
  relay_sides (trace o) = [].
Proof.
  intros e o. split; [in_trace |].
  apply (query_failure_is_soft mock_checksum mock_int query_fails "source"
           "contract_info.json" mock0 Src Deposit 96 100 e).
  in_trace.
Defined.

Lemma empty_batch_no_submission_witness :
  let o := pass (with_logs (fun _ _ => []) mock0) in
  In (CGetAllEntries Src Deposit 96 100 (inr [])) (trace o) ∧
  value o = inr 0 ∧
  printed (trace o)
  = ["No Deposit events found on source in the last 5 blocks"] ∧
  relay_sides (trace o) = [].
Proof.
  intros o. split; [in_trace |].
  apply (empty_batch_no_submission mock_checksum mock_int mock "source"
           "contract_info.json" (with_logs (fun _ _ => []) mock0)
           Src Deposit 96 100).
  in_trace.
Defined.

Lemma disconnected_pass_stops_witness :
  let o := pass (with_connected (fun s => match s with
                                          | Src => true
                                          | Dst => false
                                          end) mock0) in
  In (CIsConnected Dst (inr false)) (trace o) ∧
  value o = inr 0 ∧
  printed (trace o) = ["Failed to connect to one of the RPC endpoints"] ∧
  heights (trace o) = [] ∧
  event_queries (trace o) = [] ∧
  connections (trace o) = [(Src, inr true); (Dst, inr false)].
Proof.
  intros o. split; [in_trace |].
  apply (disconnected_pass_stops mock_checksum mock_int mock "source"
           "contract_info.json"
           (with_connected (fun s => match s with
                                     | Src => true
                                     | Dst => false
                                     end) mock0) Dst).
  in_trace.
Defined.

Lemma both_chains_set_up_witness :
  In (CGetAllEntries Src Deposit 96 100 (inr window_events))
     (trace (pass mock0)) ∧
  sessions (trace (pass mock0))
  = [(Src, "https://api.avax-test.network/ext/bc/C/rpc");
     (Dst, "https://data-seed-prebsc-1-s1.binance.org:8545/")] ∧
  connections (trace (pass mock0)) = [(Src, inr true); (Dst, inr true)] ∧
  ∃ latest_src latest_dst,
    heights (trace (pass mock0))
    = [(Src, inr latest_src); (Dst, inr latest_dst)].
Proof.
  split; [in_trace |].
  apply (both_chains_set_up mock_checksum mock_int mock "source"
           "contract_info.json"
           mock0 Src Deposit 96 100 (inr window_events)).
  in_trace.
Defined.

Lemma missing_address_raises_witness :
  let src : gmap string json := <["abi" := JArr []]> ∅ in
  let o := interp mock (scan_with_info mock_checksum mock_int "source"
                          (JObj src)
                          (JObj (entry dst_address))) mock0 in
  src !! "address" = None ∧
  In (CBlockNumber Dst (inr 2)) (trace o) ∧
  value o = inl (KeyError "address") ∧
  ∃ latest_src,
    trace o = [CNewWeb3 Src avax_rpc (inr tt); CNewWeb3 Dst bsc_rpc (inr tt);
               CIsConnected Src (inr true); CIsConnected Dst (inr true);
               CBlockNumber Src (inr latest_src); CBlockNumber Dst (inr 2)].
Proof.
  intros src o. split; [reflexivity |]. split; [in_trace |].
  apply (missing_address_raises mock_checksum mock_int mock Src src
           (JObj (entry dst_address)) mock0 2); [reflexivity | in_trace].
Defined.

Lemma warden_address_required_witness :
  let src : gmap string json :=
    <["warden_private_key" := JStr "0xkeyA"]> (entry src_address) in
  let dst := JObj (warden_entry dst_address "0xkeyB" warden_b) in
  is_Some (src !! "warden_private_key") ∧
  src !! "warden_address" = None ∧
  resolve_warden mock_checksum (JObj src) dst
    = inl (KeyError "warden_address") ∧
  ∀ (E : Env) (scanned : side) (w : world E),
    let o := interp E (scan_with_info mock_checksum mock_int (side_name scanned)
                         (JObj src) dst) w in
    Forall (fun c => relay_call c = false) (trace o) ∧ value o ≠ inr 1.
Proof.
  intros src dst. split; [by eexists |]. split; [reflexivity |].
  apply (warden_address_required mock_checksum mock_int src dst);
    [by eexists | reflexivity].
Defined.

Lemma unreadable_configuration_witness :
  let e := Raised "JSONDecodeError" "Expecting value" in
  let o := pass (with_config (inl e) mock0) in
  In (CLoadJson "contract_info.json" (inl e)) (trace o) ∧
  length (config_reads (trace o)) = 2%nat ∧
  Forall (fun c => web3_call c = false) (trace o) ∧
  (value o = inr 0 ∨
   ∃ c2 e', In (CLoadJson "contract_info.json" (inr c2)) (trace o) ∧
            getitem c2 "destination" = inl e' ∧ value o = inl e').
Proof.
  intros e o. split; [in_trace |].
  apply (unreadable_configuration mock_checksum mock_int mock "source"
           "contract_info.json" "contract_info.json"
           (with_config (inl e) mock0) e).
  in_trace.
Defined.

(** Over [unreadable_logs] the first deposit is relayed and the amount
    of the second ends the pass. *)
Lemma unreadable_entry_ends_pass_witness :
  let o := pass (with_logs unreadable_logs mock0) in
  let bad := log_entry (PStr "12 tokens") 99 Byte.x12 in
  let e := Raised "ValueError" "invalid literal for int()" in
  In (CGetAllEntries Src Deposit 96 100
        (inr ([deposit 1000 98 Byte.x11] ++
              bad :: [deposit 7 100 Byte.x13])%list)) (trace o) ∧
  forallb (readable mock_int) [deposit 1000 98 Byte.x11] = true ∧
  read_fields mock_int bad = inl e ∧
  value o = inl e ∧
  ∃ (pre : list Call) (segs : list (list Call)) (warden_pk : json)
    (warden_addr : string),
    trace o = (pre ++
               CGetAllEntries Src Deposit 96 100
                 (inr ([deposit 1000 98 Byte.x11] ++
                       bad :: [deposit 7 100 Byte.x13])%list) ::
               concat segs)%list ∧
    Forall (fun c => relay_call c = false) pre ∧
    Forall2 (Relayed mock_int Src warden_pk warden_addr)
            [deposit 1000 98 Byte.x11] segs.
Proof.
  intros o bad e. split; [in_trace |]. split; [reflexivity |].
  split; [reflexivity |].
  apply (unreadable_entry_ends_pass mock_checksum mock_int mock "source"
           "contract_info.json" (with_logs unreadable_logs mock0)
           Src Deposit 96 100 [deposit 1000 98 Byte.x11]
           [deposit 7 100 Byte.x13] bad e);
    [in_trace | reflexivity | reflexivity].
Defined.

(** Over [hashless_logs] two of the three submissions are accepted and
    none is reported as sent. *)
Lemma unshown_hash_reported_failed_witness :
  let o := pass (with_logs hashless_logs mock0) in
  let evts := hashless_logs Src Deposit in
  In (CGetAllEntries Src Deposit 96 100 (inr evts)) (trace o) ∧
  forallb (readable mock_int) evts = true ∧
  forallb (fun evt => negb (hash_shown evt)) evts = true ∧
  accepted_count (trace o) = 2%nat ∧
  sent_count Src (trace o) = 0%nat ∧
  failed_count (trace o) = length evts ∧
  value o = inr 1.
Proof.
  intros o evts. split; [in_trace |]. split; [reflexivity |].
  split; [reflexivity |]. split; [reflexivity |].
  apply (unshown_hash_reported_failed mock_checksum mock_int mock "source"
           "contract_info.json" (with_logs hashless_logs mock0)
           Src Deposit 96 100 evts);
    [in_trace | reflexivity | reflexivity].
Defined.
